(** * Earthstar: the es.4 document format and the SQLite document driver

    A shallow embedding of
    - [FormatEs4] (formats/format_es4.ts): hashing, signing, wiping,
      stripping of extra fields and the validity checks of es.4 documents;
    - [DocDriverSqliteFfi] (replica/doc_drivers/sqlite_ffi.ts): the
      life cycle, the config table and the local index of the driver.

    JavaScript objects are finite maps from property names to values,
    the values are the primitives [undefined], [null], booleans, numbers
    and strings, numbers are the integer-valued doubles (as [Z]; every
    number the validators accept is a safe integer, where double
    arithmetic is exact), strings are byte strings.  A function that
    returns [T | ValidationError] or throws has its result in
    [Outcome T]. *)

From stdpp Require Import base gmap strings list sorting pretty.
From Stdlib Require Import ZArith Lia Ascii.

Local Open Scope Z_scope.

(** ** JavaScript values and objects *)

Inductive JsVal : Type :=
  | JUndefined
  | JNull
  | JBool (b : bool)
  | JNum (n : Z)
  | JStr (s : string).

#[global] Instance JsVal_eq_dec : EqDecision JsVal.
Proof. solve_decision. Defined.

(** A plain object: its own enumerable properties. *)
Abbreviation JsObject := (gmap string JsVal).

(** [o.k]: a missing property reads as [undefined]. *)
Definition prop (o : JsObject) (k : string) : JsVal :=
  default JUndefined (o !! k).

(** What a TypeScript [any] argument can be at run time. *)
Inductive JsAny : Type :=
  | Prim (v : JsVal)
  | Obj (o : JsObject).

Definition tab : string := String "009"%char "".
Definition nl : string := String "010"%char "".
Definition quote : string := String "034"%char "".

(** [`${v}`]: the string a template literal interpolates. *)
Definition toString (v : JsVal) : string :=
  match v with
  | JUndefined => "undefined"
  | JNull => "null"
  | JBool true => "true"
  | JBool false => "false"
  | JNum n => pretty n
  | JStr s => s
  end.

(** Reading a property at its declared TypeScript type.  The schema check
    runs before every such read, see [basic_validity_shape]. *)
Definition stringOf (v : JsVal) : string :=
  match v with JStr s => s | _ => toString v end.
Definition numberOf (v : JsVal) : Z :=
  match v with JNum n => n | _ => 0 end.
Definition nullableNumberOf (v : JsVal) : option Z :=
  match v with JNum n => Some n | _ => None end.

(** [s.indexOf(t) !== -1] *)
Fixpoint includes (s t : string) : bool :=
  String.prefix t s ||
  match s with
  | EmptyString => false
  | String _ s' => includes s' t
  end.

Definition startsWith (s t : string) : bool := String.prefix t s.

Definition endsWith (s t : string) : bool :=
  String.prefix (String.rev t) (String.rev s).

(** ** Errors and outcomes *)

Record ValidationError : Type := mkValidationError { message : string }.

(** [OtherError] is an [Error] of any other class, as the SQLite
    bindings throw. *)
Inductive Exception : Type :=
  | TypeError
  | ReplicaIsClosedError
  | EarthstarError (msg : string)
  | OtherError (msg : string).

(** The three ways a call ends: a value, a returned [ValidationError]
    (for which [isErr] holds), or an exception. *)
Inductive Outcome (A : Type) : Type :=
  | Ok (a : A)
  | Err (e : ValidationError)
  | Throw (x : Exception).
Arguments Ok {A} a.
Arguments Err {A} e.
Arguments Throw {A} x.

#[global] Instance ValidationError_eq_dec : EqDecision ValidationError.
Proof. solve_decision. Defined.
#[global] Instance Exception_eq_dec : EqDecision Exception.
Proof. solve_decision. Defined.
#[global] Instance Outcome_eq_dec `{EqDecision A} : EqDecision (Outcome A).
Proof. solve_decision. Defined.

(** [const x = f(); if (isErr(x)) return x; ...], written [x ← f; ...]. *)
#[global] Instance Outcome_bind : MBind Outcome := fun A B k m =>
  match m with
  | Ok a => k a
  | Err e => Err e
  | Throw x => Throw x
  end.

#[global] Instance Outcome_fmap : FMap Outcome := fun A B f m =>
  match m with
  | Ok a => Ok (f a)
  | Err e => Err e
  | Throw x => Throw x
  end.

(** The value [true] of a check that passed. *)
Abbreviation Valid := (Ok tt).

Definition invalid {A} (msg : string) : Outcome A :=
  Err (mkValidationError msg).

(** ** Checkers (core-validators/checkers.ts) *)

Module Checkers.

Definition CheckerResult : Type := option string.
Definition Checker : Type := JsVal -> CheckerResult.

Record CheckStringOpts : Type := {
  allowedChars : option string;
  len : option Z;
  minLen : option Z;
  maxLen : option Z;
}.

Record CheckIntOpts : Type := {
  min : option Z;
  max : option Z;
  nullable : bool;
}.

Record CheckObjOpts : Type := {
  objSchema : list (string * Checker);
  allowLiteralUndefined : bool;
  allowExtraKeys : bool;
}.

Definition hasChar (allowed : string) (c : ascii) : bool :=
  bool_decide (c ∈ String.list_ascii_of_string allowed).

Definition onlyHasChars (s allowed : string) : bool :=
  forallb (hasChar allowed) (String.list_ascii_of_string s).

Definition violates {A} (bound : option A) (bad : A -> bool) : bool :=
  match bound with
  | Some b => bad b
  | None => false
  end.

(** Modelled from the spec: [checkLiteral] of core-validators/checkers.ts
    is not among the sources; the value has to be the literal itself
    ("[format] (tag)"). *)
Definition checkLiteral (lit : string) : Checker := fun x =>
  if decide (x = JStr lit) then None
  else Some "expected the literal".

(** Modelled from the spec: [checkString] of core-validators/checkers.ts
    is not among the sources; a required string within the length bounds
    ("2–512 characters", bounds included) drawn from the allowed
    characters ("from a restricted alphabet"). *)
Definition checkString (opts : CheckStringOpts) : Checker := fun x =>
  match x with
  | JUndefined => Some "required"
  | JStr s =>
      let n := Z.of_nat (String.length s) in
      if violates (minLen opts) (fun b => n <? b)
      then Some "string shorter than the min length"
      else if violates (maxLen opts) (fun b => b <? n)
      then Some "string longer than the max length"
      else if violates (len opts) (fun b => negb (n =? b))
      then Some "string does not have the required length"
      else if violates (allowedChars opts) (fun a => negb (onlyHasChars s a))
      then Some "contains disallowed characters"
      else None
  | _ => Some "expected a string"
  end.

(** Modelled from the spec: [checkInt] of core-validators/checkers.ts is
    not among the sources; a required integer, [null] only when
    [nullable], in the half-open range the spec gives for timestamps
    ("lies in [10^13, 2^53-2)": [min] included, [max] excluded). *)
Definition checkInt (opts : CheckIntOpts) : Checker := fun x =>
  match x with
  | JUndefined => Some "required"
  | JNull => if nullable opts then None else Some "not nullable"
  | JNum n =>
      if violates (min opts) (fun b => n <? b)
      then Some "integer too small"
      else if violates (max opts) (fun b => b <=? n)
      then Some "integer too large"
      else None
  | _ => Some "expected a number"
  end.

(** The first error among the fields of the schema, in schema order. *)
Fixpoint checkFields (schema : list (string * Checker)) (x : JsObject)
  : CheckerResult :=
  match schema with
  | [] => None
  | (key, validator) :: rest =>
      match validator (prop x key) with
      | Some err => Some (key +:+ ": " +:+ err)
      | None => checkFields rest x
      end
  end.

(** Modelled from the spec: [checkObj] of core-validators/checkers.ts is
    not among the sources ("basic structural/schema check"); following
    the options the schema sets, no property is literally [undefined],
    no property is outside the schema, and every field of the schema
    passes its checker. *)
Definition checkObj (opts : CheckObjOpts) (x : JsObject) : CheckerResult :=
  if negb (allowLiteralUndefined opts) &&
     negb (bool_decide (map_Forall (fun _ v => v <> JUndefined) x))
  then Some "a property is explicitly set to undefined"
  else if negb (allowExtraKeys opts) &&
          negb (bool_decide (dom x ⊆ list_to_set (objSchema opts).*1))
  then Some "extra property in object"
  else checkFields (objSchema opts) x.

(** [isPlainObject] *)
Definition isPlainObject (x : JsAny) : bool :=
  match x with
  | Obj _ => true
  | Prim _ => false
  end.

(** [Object.entries] *)
Definition entries (x : JsAny) : JsObject :=
  match x with
  | Obj o => o
  | Prim _ => ∅
  end.

End Checkers.

(** ** The crypto provider and the address validators *)

Record AuthorKeypair : Type := { address : string; secret : string }.

(** [Crypto] (crypto/crypto.ts), over the driver in use.  [sign] and
    [verify] may throw; [sha256base32] is taken to return its digest for
    every string, so a driver whose hashing throws is outside this
    model. *)
Class Crypto : Type := {
  sha256base32 : string -> string;
  sign : AuthorKeypair -> string -> Outcome string;
  verify : string -> string -> string -> Outcome bool;
}.

(** core-validators/characters.ts and core-validators/addresses.ts. *)
Class CoreValidators : Type := {
  authorAddressChars : string;
  pathChars : string;
  workspaceAddressChars : string;
  checkAuthorIsValid : string -> Outcome unit;
  checkShareIsValid : string -> Outcome unit;
}.

(** Modelled from the spec: [b32chars] of core-validators/characters.ts is
    not among the sources; "base32 [a-z2-7]". *)
Definition b32chars : string := "abcdefghijklmnopqrstuvwxyz234567".

(** [try { m } catch { handler }] *)
Definition tryCatch {A} (m handler : Outcome A) : Outcome A :=
  match m with
  | Throw _ => handler
  | _ => m
  end.

(** ** The es.4 format (formats/format_es4.ts) *)

Module FormatEs4.
Import Checkers.

Definition FUTURE_CUTOFF_MINUTES : Z := 10.
Definition FUTURE_CUTOFF_MICROSECONDS : Z :=
  FUTURE_CUTOFF_MINUTES * 60 * 1000 * 1000.

Definition MIN_TIMESTAMP : Z := 10000000000000.
Definition MAX_TIMESTAMP : Z := 9007199254740990.

Definition MAX_CONTENT_LENGTH : Z := 4000000.

Definition HASH_STR_LEN : Z := 53.
Definition SIG_STR_LEN : Z := 104.

Record Cleaned : Type := { doc : JsObject; extras : JsObject }.

Definition fakeSignature : string :=
  "bthisisafakesignatureusedtofillintheobjectwhenvalidatingitforhashingaaaaaaaaaaaaaaaaaaaaaaaaaaaaaaaaaaaa".

Section WithProviders.
Context `{Crypto} `{CoreValidators}.

Definition ES4_CORE_SCHEMA : CheckObjOpts := {|
  objSchema := [
    ("format", checkLiteral "es.4");
    ("author",
      checkString {| allowedChars := Some authorAddressChars;
                     len := None; minLen := None; maxLen := None |});
    ("content",
      checkString {| allowedChars := None; len := None;
                     minLen := None; maxLen := Some MAX_CONTENT_LENGTH |});
    ("contentHash",
      checkString {| allowedChars := Some b32chars;
                     len := Some HASH_STR_LEN;
                     minLen := None; maxLen := None |});
    ("deleteAfter",
      checkInt {| min := Some MIN_TIMESTAMP; max := Some MAX_TIMESTAMP;
                  nullable := true |});
    ("path",
      checkString {| allowedChars := Some pathChars; len := None;
                     minLen := Some 2; maxLen := Some 512 |});
    ("signature",
      checkString {| allowedChars := Some b32chars;
                     len := Some SIG_STR_LEN;
                     minLen := None; maxLen := None |});
    ("timestamp",
      checkInt {| min := Some MIN_TIMESTAMP; max := Some MAX_TIMESTAMP;
                  nullable := false |});
    ("workspace",
      checkString {| allowedChars := Some workspaceAddressChars;
                     len := None; minLen := None; maxLen := None |})
  ];
  allowLiteralUndefined := false;
  allowExtraKeys := false;
|}.

Definition _checkBasicDocumentValidity (doc : JsObject) : Outcome unit :=
  match checkObj ES4_CORE_SCHEMA doc with
  | Some err => invalid err
  | None => Valid
  end.

(** Deterministic hash of this version of the document. *)
Definition hashDocument (doc : JsObject) : Outcome string :=
  let docWithFakeSig := <["signature" := JStr fakeSignature]> doc in
  _ ← _checkBasicDocumentValidity docWithFakeSig;
  Ok (sha256base32 (
    "author" +:+ tab +:+ toString (prop doc "author") +:+ nl +:+
    "contentHash" +:+ tab +:+ toString (prop doc "contentHash") +:+ nl +:+
    (if decide (prop doc "deleteAfter" = JNull) then ""
     else "deleteAfter" +:+ tab +:+
          toString (prop doc "deleteAfter") +:+ nl) +:+
    "format" +:+ tab +:+ toString (prop doc "format") +:+ nl +:+
    "path" +:+ tab +:+ toString (prop doc "path") +:+ nl +:+
    "timestamp" +:+ tab +:+ toString (prop doc "timestamp") +:+ nl +:+
    "workspace" +:+ tab +:+ toString (prop doc "workspace") +:+ nl)).

Definition signDocument (keypair : AuthorKeypair) (doc : JsObject)
  : Outcome JsObject :=
  hash ← hashDocument doc;
  sig ← sign keypair hash;
  Ok (<["signature" := JStr sig]> doc).

(** [input.deleteAfter ?? null] *)
Definition orNull (v : JsVal) : JsVal :=
  match v with
  | JUndefined => JNull
  | _ => v
  end.

Definition generateDocument (input : JsObject) (keypair : AuthorKeypair)
    (share : string) (timestamp : Z) : Outcome JsObject :=
  let doc : JsObject :=
    <["signature" := JStr "?"]> (
    <["workspace" := JStr share]> (
    <["timestamp" := JNum timestamp]> (
    <["path" := prop input "path"]> (
    <["deleteAfter" := orNull (prop input "deleteAfter")]> (
    <["contentHash" :=
        JStr (sha256base32 (toString (prop input "content")))]> (
    <["content" := prop input "content"]> (
    <["author" := JStr (address keypair)]> (
    <["format" := JStr "es.4"]> ∅)))))))) in
  signDocument keypair doc.

Definition validKeys : gset string :=
  list_to_set (objSchema ES4_CORE_SCHEMA).*1.

(** One turn of the loop over [Object.entries(doc)]. *)
Definition removeExtraFields_step (key : string) (val : JsVal)
    (acc : Outcome Cleaned) : Outcome Cleaned :=
  r ← acc;
  if decide (key ∈ validKeys)
  then Ok {| doc := <[key := val]> (doc r); extras := extras r |}
  else if negb (startsWith key "_")
  then invalid
    "extra document fields must have names starting with an underscore"
  else Ok {| doc := doc r; extras := <[key := val]> (extras r) |}.

Definition removeExtraFields (x : JsAny) : Outcome Cleaned :=
  if negb (isPlainObject x)
  then invalid "doc is not a plain javascript object"
  else
    map_fold removeExtraFields_step (Ok {| doc := ∅; extras := ∅ |})
             (entries x).

(** [v.length === 0] *)
Definition lengthIsZero (v : JsVal) : Outcome bool :=
  match v with
  | JUndefined | JNull => Throw TypeError
  | JStr s => Ok (bool_decide (String.length s = 0%nat))
  | JBool _ | JNum _ => Ok false
  end.

(** Overwrite the user-written contents of a document and return the
    signed document. *)
Definition wipeDocument (keypair : AuthorKeypair) (d : JsObject)
  : Outcome JsObject :=
  empty ← lengthIsZero (prop d "content");
  if (empty : bool) then Ok d
  else
    cleanedResult ← removeExtraFields (Obj d);
    let cleanedDoc := doc cleanedResult in
    let emptyDoc : JsObject :=
      <["signature" := JStr "?"]> (
      <["contentHash" := JStr (sha256base32 "")]> (
      <["content" := JStr ""]> cleanedDoc)) in
    signDocument keypair emptyDoc.

Definition _checkAuthorCanWriteToPath (author path : string)
  : Outcome unit :=
  if negb (includes path "~") then Valid
  else if includes path ("~" +:+ author) then Valid
  else invalid
    ("author " +:+ author +:+ " can't write to path " +:+ path).

Definition _checkTimestampIsOk (timestamp : Z) (deleteAfter : option Z)
    (now : Z) : Outcome unit :=
  if bool_decide (timestamp > now + FUTURE_CUTOFF_MICROSECONDS)
  then invalid "timestamp too far in the future"
  else
    match deleteAfter with
    | Some deleteAfter =>
        if bool_decide (now > deleteAfter)
        then invalid "ephemeral doc has expired"
        else if bool_decide (deleteAfter <= timestamp)
        then invalid "ephemeral doc expired before it was created"
        else Valid
    | None => Valid
    end.

(** [deleteAfter] is [JUndefined] when the caller omits it. *)
Definition _checkPathIsValid (path : string) (deleteAfter : JsVal)
  : Outcome unit :=
  if negb (startsWith path "/")
  then invalid "invalid path: must start with /"
  else if endsWith path "/"
  then invalid "invalid path: must not end with /"
  else if startsWith path "/@"
  then invalid ("invalid path: must not start with " +:+
                quote +:+ "/@" +:+ quote)
  else if includes path "//"
  then invalid "invalid path: must not contain two consecutive slashes"
  else if bool_decide (deleteAfter <> JUndefined)
  then
    if negb (includes path "!") && bool_decide (deleteAfter <> JNull)
    then invalid "when deleteAfter is set, path must contain '!'"
    else if includes path "!" && bool_decide (deleteAfter = JNull)
    then invalid "when deleteAfter is null, path must not contain '!'"
    else Valid
  else Valid.

Definition _checkAuthorSignatureIsValid (doc : JsObject) : Outcome unit :=
  tryCatch
    (hash ← hashDocument doc;
     verified ← verify (stringOf (prop doc "author"))
                       (stringOf (prop doc "signature")) hash;
     if negb verified then invalid "signature is invalid" else Valid)
    (invalid "signature is invalid (unexpected exception)").

Definition _checkContentMatchesHash (content contentHash : string)
  : Outcome unit :=
  if bool_decide (sha256base32 content <> contentHash)
  then invalid "content does not match contentHash"
  else Valid.

(** [Date_now] is the reading of [Date.now()], used when [now] is
    omitted. *)
Definition checkDocumentIsValid (Date_now : Z) (doc : JsObject)
    (now : option Z) : Outcome unit :=
  let now := default (Date_now * 1000) now in
  _ ← _checkBasicDocumentValidity doc;
  _ ← _checkTimestampIsOk (numberOf (prop doc "timestamp"))
        (nullableNumberOf (prop doc "deleteAfter")) now;
  _ ← _checkAuthorCanWriteToPath (stringOf (prop doc "author"))
        (stringOf (prop doc "path"));
  _ ← _checkPathIsValid (stringOf (prop doc "path"))
        (prop doc "deleteAfter");
  _ ← checkAuthorIsValid (stringOf (prop doc "author"));
  _ ← checkShareIsValid (stringOf (prop doc "workspace"));
  _ ← _checkAuthorSignatureIsValid doc;
  _ ← _checkContentMatchesHash (stringOf (prop doc "content"))
        (stringOf (prop doc "contentHash"));
  Valid.

Definition getAttachmentInfo (_doc : JsObject) : Outcome unit :=
  invalid "es.4 does not support attachments".

Definition authorFromCredentials (credentials : AuthorKeypair) : string :=
  address credentials.

End WithProviders.
End FormatEs4.

(** ** The SQLite document driver (replica/doc_drivers/sqlite_ffi.ts) *)

Module DocDriverSqliteFfi.

(** A row of the [docs] table as [upsertSync] writes it; the [doc]
    column holds the document (its JSON text in the source). *)
Record SqlDocRow : Type := {
  doc : JsObject;
  localIndex : Z;
  pathAuthor : string;
}.

(** The tables of the database file: [config] by its primary key [key],
    [docs] by its unique column [pathAuthor]. *)
Record Database : Type := {
  config : gmap string string;
  docs : gmap string SqlDocRow;
}.

Inductive WillMatch : Type := MatchAll | MatchSome | MatchNothing.

(** query/query.ts and the statements of sqlite.shared.ts that select
    documents. *)
Class QueryEngine : Type := {
  Query : Type;
  cleanUpQuery : Query -> Query * WillMatch;
  (** [makeDocQuerySql(query, now, "documents")] run on the table *)
  selectDocs : Query -> Z -> gmap string SqlDocRow -> list SqlDocRow;
  (** the rows that [SELECT_EXPIRED_DOC_QUERY] returns for [now] *)
  selectExpired : Z -> SqlDocRow -> bool;
  (** the rows that [DELETE_EXPIRED_DOC_QUERY] deletes for [now] *)
  deleteExpired : Z -> SqlDocRow -> bool;
}.

(** *** Numbers *)

(** The local indexes are numbers of JavaScript, doubles, that hold
    whole numbers.  [roundToDouble z] is the double nearest to the whole
    number [z], ties to the even significand, below the range where
    doubles overflow: every whole number up to 2^53 in size is a double,
    and beyond that the doubles are [ulp] apart. *)
Definition roundToDouble (z : Z) : Z :=
  if bool_decide (Z.abs z <= 2 ^ 53) then z
  else
    let ulp := 2 ^ (Z.log2 (Z.abs z) - 52) in
    let q := z / ulp in
    let r := z mod ulp in
    if bool_decide (2 * r < ulp) then q * ulp
    else if bool_decide (ulp < 2 * r) then (q + 1) * ulp
    else if Z.even q then q * ulp
    else (q + 1) * ulp.

(** [n + 1] on a double [n]: the sum, rounded.  It is [n + 1] up to
    2^53 and is 2^53 again at 2^53.  A sum of doubles is never below the
    double it adds to; the maximum keeps that for the integers that are
    no doubles. *)
Definition plusOne (n : Z) : Z := Z.max n (roundToDouble (n + 1)).
#[global] Arguments roundToDouble : simpl never.
#[global] Arguments plusOne : simpl never.

(** The indexes at which [n + 1] is exact and above [n]. *)
Definition exactIndex (n : Z) : Prop := - 2 ^ 53 <= n < 2 ^ 53.

Record Driver : Type := {
  share : string;
  _filename : string;
  _isClosed : bool;
  _db : Database;
  _maxLocalIndex : Z;
}.

Definition withDb (d : Driver) (db : Database) : Driver :=
  {| share := share d; _filename := _filename d; _isClosed := _isClosed d;
     _db := db; _maxLocalIndex := _maxLocalIndex d |}.

(** *** Life cycle *)

(** [fs] is the set of the files that exist; [Deno.remove] of a file
    that does not exist throws, and the throw is caught. *)
Definition close (erase : bool) (fs : gset string) (d : Driver)
  : Outcome unit * Driver * gset string :=
  if _isClosed d then (Throw ReplicaIsClosedError, d, fs)
  else
    let fs' :=
      if erase && negb (bool_decide (_filename d = ":memory:"))
      then fs ∖ {[ _filename d ]} ∖ {[ _filename d +:+ "-shm" ]}
              ∖ {[ _filename d +:+ "-wal" ]}
      else fs in
    (Ok tt,
     {| share := share d; _filename := _filename d; _isClosed := true;
        _db := _db d; _maxLocalIndex := _maxLocalIndex d |},
     fs').

Definition isClosed (d : Driver) : bool := _isClosed d.

(** Modelled from the spec: [MAX_LOCAL_INDEX_QUERY] of sqlite.shared.ts
    is not among the sources; the greatest [localIndex] of the [docs]
    table, [NULL] when the table has no row. *)
Definition MAX_LOCAL_INDEX_QUERY (db : Database) : option Z :=
  map_fold (fun _ row acc =>
              Some (match acc with
                    | Some n => Z.max n (localIndex row)
                    | None => localIndex row
                    end))
           None (docs db).

(** The driver the constructor returns over the tables [db], which it
    has ensured: [_maxLocalIndex] is assigned from the query, after
    [ensureTables], and nothing assigns it later in the constructor. *)
Definition constructed (share filename : string) (db : Database) : Driver :=
  let maxLocalIndex := MAX_LOCAL_INDEX_QUERY db in
  {| share := share; _filename := filename; _isClosed := false; _db := db;
     _maxLocalIndex :=
       match maxLocalIndex with
       | Some n => n
       | None => -1
       end |}.

(** No row of the [docs] table has a [localIndex] above
    [_maxLocalIndex]. *)
Definition indexesBounded (d : Driver) : Prop :=
  map_Forall (fun _ row => localIndex row <= _maxLocalIndex d)
             (docs (_db d)).

(** *** Config *)

Definition setConfig (key content : string) (d : Driver)
  : Outcome unit * Driver :=
  if _isClosed d then (Throw ReplicaIsClosedError, d)
  else
    (Ok tt,
     withDb d {| config := <[key := content]> (config (_db d));
                 docs := docs (_db d) |}).

Definition _getConfigSync (key : string) (d : Driver) : option string :=
  config (_db d) !! key.

(** [sortedInPlace] of the keys *)
Definition _listConfigKeysSync (d : Driver) : list string :=
  merge_sort String.le (elements (dom (config (_db d)))).

Definition getConfig (key : string) (d : Driver)
  : Outcome (option string) * Driver :=
  if _isClosed d then (Throw ReplicaIsClosedError, d)
  else (Ok (_getConfigSync key d), d).

Definition listConfigKeys (d : Driver) : Outcome (list string) * Driver :=
  if _isClosed d then (Throw ReplicaIsClosedError, d)
  else (Ok (_listConfigKeysSync d), d).

(** [this._db.changes > 0]: a row was deleted. *)
Definition deleteConfig (key : string) (d : Driver)
  : Outcome bool * Driver :=
  if _isClosed d then (Throw ReplicaIsClosedError, d)
  else
    (Ok (bool_decide (is_Some (config (_db d) !! key))),
     withDb d {| config := delete key (config (_db d));
                 docs := docs (_db d) |}).

(** *** Get *)

Definition getMaxLocalIndex (d : Driver) : Outcome Z * Driver :=
  if _isClosed d then (Throw ReplicaIsClosedError, d)
  else (Ok (_maxLocalIndex d), d).

(** [{ ...doc, _localIndex: row.localIndex }] *)
Definition withLocalIndex (doc : JsObject) (localIndex : Z) : JsObject :=
  <["_localIndex" := JNum localIndex]> doc.

Section WithQueryEngine.
Context `{QueryEngine}.

Definition queryDocsSync (Date_now : Z) (queryToClean : Query)
    (d : Driver) : Outcome (list JsObject) * Driver :=
  if _isClosed d then (Throw ReplicaIsClosedError, d)
  else
    let '(query, willMatch) := cleanUpQuery queryToClean in
    match willMatch with
    | MatchNothing => (Ok [], d)
    | _ =>
        let now := Date_now * 1000 in
        let docRows := selectDocs query now (docs (_db d)) in
        (Ok ((fun row => withLocalIndex (doc row) (localIndex row))
               <$> docRows), d)
    end.

Definition queryDocs (Date_now : Z) (queryToClean : Query) (d : Driver)
  : Outcome (list JsObject) * Driver :=
  queryDocsSync Date_now queryToClean d.

(** *** Set *)

(** Modelled from the spec: [UPSERT_DOC_QUERY] of sqlite.shared.ts is
    not among the sources; the row replaces the row with the same
    [pathAuthor] ("overwriting the prior same-author same-path row",
    "pathAuthor UNIQUE"). *)
Definition UPSERT_DOC_QUERY (row : SqlDocRow) (db : Database) : Database :=
  {| config := config db; docs := <[pathAuthor row := row]> (docs db) |}.

(** [exec] is how [this._db.exec(UPSERT_DOC_QUERY, row)] ends: it
    returns ([None]) or throws ([Some x]), as the SQLite bindings do for
    a statement that fails.  [_maxLocalIndex] is incremented before the
    statement runs, so a statement that throws leaves the increment and
    no row.  (The other methods assign no field of the driver before
    their statements run.) *)
Definition upsertSync (doc : JsObject) (exec : option Exception)
    (d : Driver) : Outcome JsObject * Driver :=
  if _isClosed d then (Throw ReplicaIsClosedError, d)
  else
    let row := {|
      doc := doc;
      localIndex := plusOne (_maxLocalIndex d);
      pathAuthor :=
        toString (prop doc "path") +:+ " " +:+ toString (prop doc "author")
    |} in
    let d := {| share := share d; _filename := _filename d;
                _isClosed := _isClosed d; _db := _db d;
                _maxLocalIndex := plusOne (_maxLocalIndex d) |} in
    match exec with
    | Some x => (Throw x, d)
    | None =>
        (Ok (withLocalIndex doc (localIndex row)),
         withDb d (UPSERT_DOC_QUERY row (_db d)))
    end.

Definition upsert (doc : JsObject) (exec : option Exception) (d : Driver)
  : Outcome JsObject * Driver :=
  upsertSync doc exec d.

Definition eraseExpiredDocs (Date_now : Z) (d : Driver)
  : Outcome (list JsObject) * Driver :=
  if _isClosed d then (Throw ReplicaIsClosedError, d)
  else
    let now := Date_now * 1000 in
    let docsToWipe :=
      filter (fun row => selectExpired now row = true)
             (map_to_list (docs (_db d))).*2 in
    (Ok (doc <$> docsToWipe),
     withDb d {| config := config (_db d);
                 docs := filter (fun kv => deleteExpired now kv.2 = false)
                                (docs (_db d)) |}).

(** *** Calls in sequence *)

(** A call of one of the methods, with its arguments, the reading of
    the clock it sees and, for [upsert], how its statement ends. *)
Inductive Call : Type :=
  | CallClose (erase : bool)
  | CallSetConfig (key content : string)
  | CallGetConfig (key : string)
  | CallListConfigKeys
  | CallDeleteConfig (key : string)
  | CallGetMaxLocalIndex
  | CallQueryDocs (Date_now : Z) (query : Query)
  | CallUpsert (doc : JsObject) (exec : option Exception)
  | CallEraseExpiredDocs (Date_now : Z).

Inductive Reply : Type :=
  | Done
  | Content (content : option string)
  | Keys (keys : list string)
  | Deleted (changed : bool)
  | Index (n : Z)
  | Docs (docs : list JsObject)
  | Upserted (doc : JsObject).

(** The driver and the files around it. *)
Record World : Type := { driver : Driver; files : gset string }.

Definition reply {A} (wrap : A -> Reply) (fs : gset string)
    (r : Outcome A * Driver) : Outcome Reply * World :=
  (wrap <$> r.1, {| driver := r.2; files := fs |}).

Definition call (c : Call) (w : World) : Outcome Reply * World :=
  let d := driver w in
  let fs := files w in
  match c with
  | CallClose erase =>
      let '(r, d', fs') := close erase fs d in
      ((fun _ => Done) <$> r, {| driver := d'; files := fs' |})
  | CallSetConfig key content =>
      reply (fun _ => Done) fs (setConfig key content d)
  | CallGetConfig key => reply Content fs (getConfig key d)
  | CallListConfigKeys => reply Keys fs (listConfigKeys d)
  | CallDeleteConfig key => reply Deleted fs (deleteConfig key d)
  | CallGetMaxLocalIndex => reply Index fs (getMaxLocalIndex d)
  | CallQueryDocs Date_now query =>
      reply Docs fs (queryDocs Date_now query d)
  | CallUpsert doc exec => reply Upserted fs (upsert doc exec d)
  | CallEraseExpiredDocs Date_now =>
      reply Docs fs (eraseExpiredDocs Date_now d)
  end.

(** The replies to the calls made one after the other, and the world
    they leave. *)
Fixpoint run (calls : list Call) (w : World)
  : list (Outcome Reply) * World :=
  match calls with
  | [] => ([], w)
  | c :: rest =>
      let '(r, w') := call c w in
      let '(rs, w'') := run rest w' in
      (r :: rs, w'')
  end.

(** The driver that the calls leave, starting from [d]. *)
Definition reached (d : Driver) (fs : gset string) (calls : list Call)
  : Driver :=
  driver (run calls {| driver := d; files := fs |}).2.

(** The local indexes that the successful upserts among the replies
    assigned, in order. *)
Definition assignedIndexes (replies : list (Outcome Reply)) : list Z :=
  omap (fun r => match r with
                 | Ok (Upserted doc) =>
                     Some (numberOf (prop doc "_localIndex"))
                 | _ => None
                 end) replies.

(** The statement of the call returns. *)
Definition execReturns (c : Call) : Prop :=
  match c with
  | CallUpsert _ (Some _) => False
  | _ => True
  end.

End WithQueryEngine.
End DocDriverSqliteFfi.

(** ** The canonical form of a document *)

Module Canonical.

(** The line of one field: nothing for [content], for [signature] and
    for a field whose value is [null]. *)
Definition line (doc : JsObject) (name : string) : string :=
  if bool_decide (name = "content") || bool_decide (name = "signature") ||
     bool_decide (prop doc name = JNull)
  then ""
  else name +:+ tab +:+ toString (prop doc name) +:+ nl.

(** The fields of the document sorted by name. *)
Definition sortedFields (doc : JsObject) : list string :=
  merge_sort String.le (elements (dom doc)).

(** The canonical form as the data specification words it: sort the
    fields in lexicographic order by field name, then emit the line of
    each. *)
Definition canonicalForm (doc : JsObject) : string :=
  foldr (fun name result => line doc name +:+ result) "" (sortedFields doc).

End Canonical.

(** ** The shape of a document that passed the schema check *)

Section Shape.
Context `{Crypto} `{CoreValidators}.
Import FormatEs4.

Record Es4Shape (doc : JsObject) : Prop := {
  shape_dom : dom doc = validKeys;
  shape_format : prop doc "format" = JStr "es.4";
  shape_author : exists s, prop doc "author" = JStr s;
  shape_content : exists s, prop doc "content" = JStr s;
  shape_contentHash : exists s, prop doc "contentHash" = JStr s;
  shape_deleteAfter :
    prop doc "deleteAfter" = JNull \/
    exists n, prop doc "deleteAfter" = JNum n /\
              MIN_TIMESTAMP <= n < MAX_TIMESTAMP;
  shape_path : exists s, prop doc "path" = JStr s;
  shape_signature : exists s, prop doc "signature" = JStr s;
  shape_timestamp :
    exists n, prop doc "timestamp" = JNum n /\
              MIN_TIMESTAMP <= n < MAX_TIMESTAMP;
  shape_workspace : exists s, prop doc "workspace" = JStr s;
}.

End Shape.

(** ** The checks of [checkDocumentIsValid], as a list *)

(** [t] occurs in [s]. *)
Definition contains (s t : string) : Prop :=
  exists pre post, s = pre +:+ t +:+ post.

(** The outcome of the first check that does not pass, [true] when all
    pass. *)
Fixpoint firstFailure (checks : list (Outcome unit)) : Outcome unit :=
  match checks with
  | [] => Valid
  | Ok _ :: rest => firstFailure rest
  | failed :: _ => failed
  end.

Section ChecksInOrder.
Context `{Crypto} `{CoreValidators}.
Import FormatEs4.

(** The moment the checks compare with. *)
Definition effectiveNow (Date_now : Z) (now : option Z) : Z :=
  default (Date_now * 1000) now.

Definition checksInOrder (Date_now : Z) (doc : JsObject) (now : option Z)
  : list (Outcome unit) :=
  [ _checkBasicDocumentValidity doc;
    _checkTimestampIsOk (numberOf (prop doc "timestamp"))
      (nullableNumberOf (prop doc "deleteAfter"))
      (effectiveNow Date_now now);
    _checkAuthorCanWriteToPath (stringOf (prop doc "author"))
      (stringOf (prop doc "path"));
    _checkPathIsValid (stringOf (prop doc "path")) (prop doc "deleteAfter");
    checkAuthorIsValid (stringOf (prop doc "author"));
    checkShareIsValid (stringOf (prop doc "workspace"));
    _checkAuthorSignatureIsValid doc;
    _checkContentMatchesHash (stringOf (prop doc "content"))
      (stringOf (prop doc "contentHash")) ].

(** The checks that come before the path-shape check all pass. *)
Definition reachesPathCheck (Date_now : Z) (doc : JsObject)
    (now : option Z) : Prop :=
  Forall (fun c => c = Valid) (take 3 (checksInOrder Date_now doc now)).

End ChecksInOrder.

(** ** What [removeExtraFields] keeps *)

Section ExtraFields.
Context `{CoreValidators}.
Import FormatEs4.

(** The fields of the schema, and the other fields. *)
Definition schemaFields (x : JsObject) : JsObject :=
  filter (fun kv => kv.1 ∈ validKeys) x.
Definition extraFields (x : JsObject) : JsObject :=
  filter (fun kv => kv.1 ∉ validKeys) x.

(** Every field outside the schema has a name that begins with an
    underscore. *)
Definition extrasUnderscored (x : JsObject) : Prop :=
  map_Forall
    (fun key _ => (key ∈ validKeys) \/ (startsWith key "_" = true)) x.

Definition underscoreError : Outcome Cleaned :=
  invalid "extra document fields must have names starting with an underscore".

(** The schema fields and the other fields apart, or the error. *)
Definition splitFields (x : JsObject) : Outcome Cleaned :=
  if decide (extrasUnderscored x)
  then Ok {| doc := schemaFields x; extras := extraFields x |}
  else underscoreError.

(** The reading under which fields outside the schema are dropped
    unless their names begin with an underscore. *)
Definition stripsSilently (x : JsObject) : Prop :=
  exists r, removeExtraFields (Obj x) = Ok r /\
    doc r = schemaFields x /\
    extras r =
      filter
        (fun kv => (kv.1 ∉ validKeys) /\ (startsWith kv.1 "_" = true)) x.

End ExtraFields.

Section Wiping.
Context `{Crypto} `{CoreValidators}.

(** The document that [wipeDocument] signs. *)
Definition emptied (d : JsObject) : JsObject :=
  <["signature" := JStr "?"]> (
  <["contentHash" := JStr (sha256base32 "")]> (
  <["content" := JStr ""]> (schemaFields d))).

End Wiping.

(** ** Providers to evaluate with *)

(** A stand-in provider: every hash is the same well-shaped base32 string,
    every signature is the same well-shaped base32 string and verifies. *)
Definition constantHash : string :=
  "baaaaaaaaaaaaaaaaaaaaaaaaaaaaaaaaaaaaaaaaaaaaaaaaaaaa".
Definition constantSignature : string :=
  "baaaaaaaaaaaaaaaaaaaaaaaaaaaaaaaaaaaaaaaaaaaaaaaaaaaaaaaaaaaaaaaaaaaaaaaaaaaaaaaaaaaaaaaaaaaaaaaaaaaaaaa".

Definition constantCrypto : Crypto := {|
  sha256base32 := fun _ => constantHash;
  sign := fun _ _ => Ok constantSignature;
  verify := fun _ _ _ => Ok true;
|}.

(** Alphabets in the style of characters.ts and address checks that accept
    everything. *)
Definition permissiveValidators : CoreValidators := {|
  authorAddressChars := "abcdefghijklmnopqrstuvwxyz0123456789@.";
  pathChars :=
    "abcdefghijklmnopqrstuvwxyzABCDEFGHIJKLMNOPQRSTUVWXYZ0123456789/'()-._~!$&+,:=@%";
  workspaceAddressChars := "abcdefghijklmnopqrstuvwxyz0123456789+.";
  checkAuthorIsValid := fun _ => Valid;
  checkShareIsValid := fun _ => Valid;
|}.

Definition suzy : AuthorKeypair := {|
  address := "@suzy.bo5sotcncvkr7p4c3lnexxpb4hjqi5tcxcov5b4irbnnz2teoifua";
  secret := "b2bgtmhqtbk5mcbyvcfuhclinucpgjqejtwkmjkgzt6aywbwmmyqa";
|}.

(** A permanent document at [/about/~@suzy…/name]. *)
Definition aboutDoc : JsObject :=
  <["format" := JStr "es.4"]> (
  <["author" := JStr (address suzy)]> (
  <["content" := JStr "Suzy"]> (
  <["contentHash" := JStr constantHash]> (
  <["deleteAfter" := JNull]> (
  <["path" := JStr ("/about/~" +:+ address suzy +:+ "/name")]> (
  <["signature" := JStr constantSignature]> (
  <["timestamp" := JNum 1700000000000000]> (
  <["workspace" := JStr "+gardening.bhyux4opeug2ieq"]> ∅)))))))).

(** An ephemeral document at [/chat/!msg]. *)
Definition chatDoc : JsObject :=
  <["path" := JStr "/chat/!msg"]> (
  <["deleteAfter" := JNum 1700000600000000]> aboutDoc).

(** A document from too far in the future whose path has no leading
    slash either. *)
Definition futureDoc : JsObject :=
  <["path" := JStr "about"]> (
  <["timestamp" := JNum 1800000000000000]> aboutDoc).

(** The moment the example documents are checked at. *)
Definition aboutNow : option Z := Some 1700000000000000.

(** [aboutDoc] as a replica hands it out, and with a field of another
    name. *)
Definition indexedDoc : JsObject := <["_localIndex" := JNum 7]> aboutDoc.
Definition colouredDoc : JsObject := <["colour" := JStr "red"]> aboutDoc.

(** A query engine that selects every row, and takes a row as expired
    when its document has a [deleteAfter] that is not after [now]. *)
Definition expiredAt (now : Z) (row : DocDriverSqliteFfi.SqlDocRow) : bool :=
  match prop (DocDriverSqliteFfi.doc row) "deleteAfter" with
  | JNum n => n <=? now
  | _ => false
  end.

Definition selectAll : DocDriverSqliteFfi.QueryEngine := {|
  DocDriverSqliteFfi.Query := unit;
  DocDriverSqliteFfi.cleanUpQuery := fun q => (q, DocDriverSqliteFfi.MatchAll);
  DocDriverSqliteFfi.selectDocs := fun _ _ rows => (map_to_list rows).*2;
  DocDriverSqliteFfi.selectExpired := expiredAt;
  DocDriverSqliteFfi.deleteExpired := expiredAt;
|}.

Definition emptyDatabase : DocDriverSqliteFfi.Database :=
  {| DocDriverSqliteFfi.config := ∅; DocDriverSqliteFfi.docs := ∅ |}.

(** A driver over a new in-memory database. *)
Definition memoryDriver : DocDriverSqliteFfi.Driver :=
  DocDriverSqliteFfi.constructed "+gardening.bhyux4opeug2ieq" ":memory:"
    emptyDatabase.

(** The driver after an upsert of [chatDoc] and a sweep at a time when
    the document has expired. *)
Definition sweptDriver : DocDriverSqliteFfi.Driver :=
  @DocDriverSqliteFfi.reached selectAll memoryDriver ∅
    [ DocDriverSqliteFfi.CallUpsert chatDoc None;
      DocDriverSqliteFfi.CallEraseExpiredDocs 1700000700000 ].

(** The driver after an upsert of [aboutDoc] and one of [chatDoc]. *)
Definition twoDocsDriver : DocDriverSqliteFfi.Driver :=
  @DocDriverSqliteFfi.reached selectAll memoryDriver ∅
    [ DocDriverSqliteFfi.CallUpsert aboutDoc None;
      DocDriverSqliteFfi.CallUpsert chatDoc None ].


(** A closed decidable proposition, decided by evaluation. *)
Ltac by_computation := apply (bool_decide_unpack _); vm_compute; exact I.

(** Case analysis on the outcome of the next check of a sequence. *)
Ltac next_check :=
  match goal with
  | |- context [mbind _ ?c] =>
      lazymatch c with
      | context [mbind] => fail
      | _ => destruct c as [[]| |] eqn:?; simpl; try done
      end
  end.

(** ** Providers that agree with themselves *)

Section Providers.
Context `{Crypto}.

(** [verify] accepts the signatures that [sign] makes with the keypair. *)
Definition signsVerify (keypair : AuthorKeypair) : Prop :=
  forall msg sig,
    sign keypair msg = Ok sig -> verify (address keypair) sig msg = Ok true.

End Providers.

(** ** The text that [hashDocument] hashes *)

(** The argument of [Crypto.sha256base32] in [hashDocument]. *)
Definition hashInput (doc : JsObject) : string :=
  "author" +:+ tab +:+ toString (prop doc "author") +:+ nl +:+
  "contentHash" +:+ tab +:+ toString (prop doc "contentHash") +:+ nl +:+
  (if decide (prop doc "deleteAfter" = JNull) then ""
   else "deleteAfter" +:+ tab +:+
        toString (prop doc "deleteAfter") +:+ nl) +:+
  "format" +:+ tab +:+ toString (prop doc "format") +:+ nl +:+
  "path" +:+ tab +:+ toString (prop doc "path") +:+ nl +:+
  "timestamp" +:+ tab +:+ toString (prop doc "timestamp") +:+ nl +:+
  "workspace" +:+ tab +:+ toString (prop doc "workspace") +:+ nl.

(** The fields that reach the hash. *)
Definition hashedFields : list string :=
  ["author"; "contentHash"; "deleteAfter"; "format"; "path"; "timestamp";
   "workspace"].

(** [c] does not occur in [s]. *)
Definition lacksChar (c : ascii) (s : string) : Prop :=
  c ∉ String.list_ascii_of_string s.

(** ** More documents and providers to evaluate with *)

(** [aboutDoc] after [wipeDocument], with the stand-in provider. *)
Definition wipedAboutDoc : JsObject :=
  <["signature" := JStr constantSignature]> (
  @emptied constantCrypto permissiveValidators aboutDoc).

(** A stand-in provider that tells one content from all the others. *)
Definition otherHash : string :=
  "bbbbbbbbbbbbbbbbbbbbbbbbbbbbbbbbbbbbbbbbbbbbbbbbbbbbb".

Definition tellingCrypto : Crypto := {|
  sha256base32 := fun s =>
    if bool_decide (s = "Suzy") then constantHash else otherHash;
  sign := fun _ _ => Ok constantSignature;
  verify := fun _ _ _ => Ok true;
|}.

(** A provider whose [verify] throws. *)
Definition throwingCrypto : Crypto := {|
  sha256base32 := fun _ => constantHash;
  sign := fun _ _ => Throw TypeError;
  verify := fun _ _ _ => Throw TypeError;
|}.

(** ** Rows of the [docs] table *)

(** The [pathAuthor] of the row that [upsertSync] writes for a
    document. *)
Definition pathAuthorOf (doc : JsObject) : string :=
  toString (prop doc "path") +:+ " " +:+ toString (prop doc "author").

(** What [generateDocument] is given for [aboutDoc]. *)
Definition aboutInput : JsObject :=
  <["content" := JStr "Suzy"]> (
  <["path" := JStr ("/about/~" +:+ address suzy +:+ "/name")]> ∅).

(** ** The constructor of the SQLite document driver *)

Module DocDriverSqliteFfiConstructor.
Import DocDriverSqliteFfi.

(** Modelled from the spec: [ReplicaSqliteOpts] of sqlite.shared.ts is
    not among the sources ("Drivers must accept either a share declared
    at open time or inherit one from their persisted config"); the
    options as the constructor reads them: a file name, a mode, and a
    share, which "create" always has and which is [null] ([None]) when
    the others leave it out.  [OptsOther] is a mode that the constructor
    does not recognise. *)
Inductive ReplicaSqliteOpts : Type :=
  | OptsCreate (filename share : string)
  | OptsOpen (filename : string) (share : option string)
  | OptsCreateOrOpen (filename : string) (share : option string)
  | OptsOther (mode filename : string) (share : option string).

Definition filenameOf (opts : ReplicaSqliteOpts) : string :=
  match opts with
  | OptsCreate filename _ | OptsOpen filename _
  | OptsCreateOrOpen filename _ | OptsOther _ filename _ => filename
  end.

Definition shareOf (opts : ReplicaSqliteOpts) : option string :=
  match opts with
  | OptsCreate _ share => Some share
  | OptsOpen _ share | OptsCreateOrOpen _ share | OptsOther _ _ share => share
  end.

(** The database files that exist, with their tables. *)
Definition Disk : Type := gmap string Database.

(** [Deno.lstatSync(filename)] returns, rather than throws. *)
Definition lstatSync (disk : Disk) (filename : string) : bool :=
  bool_decide (is_Some (disk !! filename)).

(** How a call of the constructor ends.  The constructor throws the
    [ValidationError] that the share check returns.  Over a store with
    another [schemaVersion] it goes on to migrate the documents, which
    is outside this model. *)
Inductive Constructed : Type :=
  | Returns (d : Driver)
  | Throws (x : Exception)
  | ThrowsValidationError (e : ValidationError)
  | Migrates.

(** The check of the file against the mode: the message of the
    [EarthstarError] it throws, if any. *)
Definition checkMode (opts : ReplicaSqliteOpts) (disk : Disk)
  : option string :=
  match opts with
  | OptsCreate filename _ =>
      if negb (bool_decide (filename = ":memory:")) &&
         lstatSync disk filename
      then Some ("Tried to create an sqlite file but it already exists: "
                 +:+ filename)
      else None
  | OptsOpen filename _ =>
      if bool_decide (filename = ":memory:")
      then Some "Tried to open :memory: as though it was a file"
      else if negb (lstatSync disk filename)
      then Some ("Tried to open an sqlite file but it doesn't exist: "
                 +:+ filename)
      else None
  | OptsCreateOrOpen _ _ => None
  | OptsOther mode _ _ => Some ("sqlite unrecognized opts.mode: " +:+ mode)
  end.

(** [new Sqlite.Database(filename, { memory })]: the tables of the file,
    none when the file is new or the database is in memory. *)
Definition openDatabase (filename : string) (disk : Disk) : Database :=
  if bool_decide (filename = ":memory:")
  then {| config := ∅; docs := ∅ |}
  else default {| config := ∅; docs := ∅ |} (disk !! filename).

(** The disk once the database holds [db]. *)
Definition written (filename : string) (db : Database) (disk : Disk)
  : Disk :=
  if bool_decide (filename = ":memory:") then disk
  else <[filename := db]> disk.

Definition withConfig (key content : string) (db : Database) : Database :=
  {| config := <[key := content]> (config db); docs := docs db |}.

(** [ensureTables] on the open database: [None] when the store has
    another [schemaVersion] and its documents are to be migrated. *)
Definition ensureTables (db : Database) : option Database :=
  match config db !! "schemaVersion" with
  | None => Some (withConfig "schemaVersion" "2" db)
  | Some schemaVersion =>
      if bool_decide (schemaVersion = "2") then Some db else None
  end.

Section WithValidators.
Context `{CoreValidators}.

(** [opts.share ? checkShareIsValid(opts.share) : true] *)
Definition addressIsValidResult (opts : ReplicaSqliteOpts)
  : Outcome unit :=
  match shareOf opts with
  | Some share =>
      if bool_decide (share = "") then Valid else checkShareIsValid share
  | None => Valid
  end.

(** The share of the options settled against the share that the
    [config] table holds. *)
Definition checkShare (opts : ReplicaSqliteOpts) (db : Database)
  : Constructed * Database :=
  let filename := filenameOf opts in
  match opts with
  | OptsCreate _ share =>
      let db := withConfig "share" share db in
      (Returns (constructed share filename db), db)
  | OptsOpen _ share =>
      match config db !! "share" with
      | None =>
          (Throws (EarthstarError (
             "can't open sqlite file with opts.mode=" +:+ quote +:+ "open"
             +:+ quote +:+
             " because the file doesn't have a share saved in its config"
             +:+ " table. " +:+ filename)), db)
      | Some existingShare =>
          match share with
          | Some share =>
              if bool_decide (share <> existingShare)
              then
                (Throws (EarthstarError (
                   "sqlite with opts.mode=" +:+ quote +:+ "open" +:+ quote
                   +:+ " wanted share " +:+ share +:+ " but found " +:+
                   existingShare +:+ " in the file " +:+ filename)), db)
              else (Returns (constructed existingShare filename db), db)
          | None => (Returns (constructed existingShare filename db), db)
          end
      end
  | OptsCreateOrOpen _ share =>
      match share with
      | None =>
          (Throws (EarthstarError (
             "sqlite with opts.mode=" +:+ quote +:+ "create-or-open" +:+
             quote +:+ " must have a share provided, not null")), db)
      | Some share =>
          match config db !! "share" with
          | Some existingShare =>
              if bool_decide (share <> existingShare)
              then
                (Throws (EarthstarError (
                   "sqlite file had existing share " +:+ existingShare +:+
                   " but opts wanted it to be " +:+ share +:+ " in file "
                   +:+ filename)), db)
              else (Returns (constructed share filename db), db)
          | None =>
              let db := withConfig "share" share db in
              (Returns (constructed share filename db), db)
          end
      end
  | OptsOther _ _ _ => (Returns (constructed "NOT_INITIALIZED" filename db), db)
  end.

(** [new DocDriverSqliteFfi(opts)] and the disk it leaves. *)
Definition constructor (opts : ReplicaSqliteOpts) (disk : Disk)
  : Constructed * Disk :=
  let filename := filenameOf opts in
  match checkMode opts disk with
  | Some msg => (Throws (EarthstarError msg), disk)
  | None =>
      match addressIsValidResult opts with
      | Err e => (ThrowsValidationError e, disk)
      | Throw x => (Throws x, disk)
      | Ok _ =>
          match ensureTables (openDatabase filename disk) with
          | None => (Migrates, disk)
          | Some db =>
              let '(result, db) := checkShare opts db in
              (result, written filename db disk)
          end
      end
  end.

End WithValidators.

(** The disk that holds what the driver has written. *)
Definition synced (d : Driver) (disk : Disk) : Disk :=
  written (_filename d) (_db d) disk.

End DocDriverSqliteFfiConstructor.

(** ** Stores to evaluate with *)

(** The tables of a store that was created for the gardening share,
    the disk that holds it as [garden.sqlite], and the driver that the
    constructor returns over it. *)
Definition gardenDb : DocDriverSqliteFfi.Database :=
  DocDriverSqliteFfiConstructor.withConfig "share"
    "+gardening.bhyux4opeug2ieq"
    (DocDriverSqliteFfiConstructor.withConfig "schemaVersion" "2"
       emptyDatabase).

Definition gardenDisk : DocDriverSqliteFfiConstructor.Disk :=
  {[ "garden.sqlite" := gardenDb ]}.

Definition gardenDriver : DocDriverSqliteFfi.Driver :=
  DocDriverSqliteFfi.constructed "+gardening.bhyux4opeug2ieq"
    "garden.sqlite" gardenDb.

(** Validators that reject every share address. *)
Definition rejectingValidators : CoreValidators := {|
  authorAddressChars :=
    authorAddressChars (CoreValidators := permissiveValidators);
  pathChars := pathChars (CoreValidators := permissiveValidators);
  workspaceAddressChars :=
    workspaceAddressChars (CoreValidators := permissiveValidators);
  checkAuthorIsValid := fun _ => Valid;
  checkShareIsValid := fun _ => invalid "invalid share address";
|}.

(** ** String helpers (util/misc.ts) *)

Module Misc.

(** The pieces of what is left of [str] after its first [skip]
    characters: the first piece, and the pieces after it.  A piece ends
    where the separator begins, and the next one begins after the
    separator. *)
Fixpoint splitFrom (separator : string) (skip : nat) (str : string)
  : string * list string :=
  match str with
  | "" => ("", [])
  | String a rest =>
      match skip with
      | S skip => splitFrom separator skip rest
      | O =>
          if String.prefix separator str
          then
            ("",
             let '(piece, pieces) :=
               splitFrom separator (String.length separator - 1) rest in
             piece :: pieces)
          else
            let '(piece, pieces) := splitFrom separator 0 rest in
            (String a piece, pieces)
      end
  end.

(** [str.split(separator)]: with the empty separator, the characters
    of [str]. *)
Definition split (str separator : string) : list string :=
  if bool_decide (separator = "")
  then (fun a => String a "") <$> String.list_ascii_of_string str
  else let '(piece, pieces) := splitFrom separator 0 str in piece :: pieces.

(** [pieces.join(separator)] *)
Fixpoint join (pieces : list string) (separator : string) : string :=
  match pieces with
  | [] => ""
  | piece :: rest =>
      match rest with
      | [] => piece
      | _ :: _ => piece +:+ separator +:+ join rest separator
      end
  end.

(** Replace all occurrences of the substring [from] with [to]. *)
Definition replaceAll (str from to : string) : string :=
  join (split str from) to.

(** How many times does the character occur in the string?  [None]
    when it throws an [Error], [char] not being one character. *)
Definition countChars (str char : string) : option Z :=
  if negb (String.length char =? 1)%nat then None
  else Some (Z.of_nat (length (split str char)) - 1).

End Misc.

(** The number of the characters of [str] that are [c]. *)
Definition occurrences (c : ascii) (str : string) : nat :=
  length (filter (fun a => a = c) (String.list_ascii_of_string str)).

(** ** Strings *)

Lemma String_app_assoc (s1 s2 s3 : string) :
  s1 +:+ s2 +:+ s3 = (s1 +:+ s2) +:+ s3.
Proof.
  induction s1 as [|a s1 IH]; [done|].
  change (String a (s1 +:+ s2 +:+ s3) = String a ((s1 +:+ s2) +:+ s3)).
  by rewrite IH.
Qed.

Lemma String_app_nil_r (s : string) : s +:+ "" = s.
Proof.
  induction s as [|a s IH]; [done|].
  change (String a (s +:+ "") = String a s). by rewrite IH.
Qed.

Lemma prefix_app (t s : string) :
  String.prefix t s = true <-> exists post, s = t +:+ post.
Proof.
  revert s. induction t as [|a t IH]; intros s.
  - split; [intros _; by exists s|]. intros _. by destruct s.
  - destruct s as [|b s]; simpl.
    + split; [done|]. intros [post Hp]. discriminate Hp.
    + destruct (ascii_dec a b) as [->|Hne].
      * rewrite IH. split.
        -- intros [post ->]. by exists post.
        -- intros [post Hp]. exists post. by injection Hp.
      * split; [done|]. intros [post Hp]. injection Hp. congruence.
Qed.

(** [includes s t] holds exactly when [t] occurs in [s]. *)
Lemma includes_spec (s t : string) :
  includes s t = true <-> exists pre post, s = pre +:+ t +:+ post.
Proof.
  induction s as [|a s IH].
  - cbn [includes]. rewrite orb_false_r, prefix_app. split.
    + intros [post ->]. by exists "", post.
    + intros [pre [post Hs]]. destruct pre; [by exists post|discriminate Hs].
  - cbn [includes]. rewrite orb_true_iff, IH, prefix_app. split.
    + intros [[post ->]|[pre [post ->]]].
      * by exists "", post.
      * by exists (String a pre), post.
    + intros [pre [post Hs]]. destruct pre as [|b pre].
      * left. by exists post.
      * right. injection Hs as -> ->. by exists pre, post.
Qed.

(** ** What the checkers establish *)

Section CheckerFacts.
Import Checkers.

Lemma checkFields_None schema x :
  checkFields schema x = None <->
  Forall (fun kc => kc.2 (prop x kc.1) = None) schema.
Proof.
  induction schema as [|[key validator] rest IH]; simpl.
  - split; [constructor|done].
  - rewrite Forall_cons. simpl. rewrite <- IH.
    destruct (validator (prop x key)); [|tauto].
    split; [done|]. by intros [? _].
Qed.

Lemma checkObj_None schema x :
  checkObj {| objSchema := schema; allowLiteralUndefined := false;
              allowExtraKeys := false |} x = None <->
  map_Forall (fun _ v => v <> JUndefined) x /\
  dom x ⊆ list_to_set schema.*1 /\
  Forall (fun kc => kc.2 (prop x kc.1) = None) schema.
Proof.
  unfold checkObj. simpl. rewrite <- checkFields_None.
  repeat case_bool_decide; simpl; try tauto.
  all: split; [done|tauto].
Qed.

Lemma checkString_None opts x :
  checkString opts x = None -> exists s, x = JStr s.
Proof. destruct x; try done. intros _. by eexists. Qed.

Lemma checkInt_None lo hi nu x :
  checkInt {| min := Some lo; max := Some hi; nullable := nu |} x = None ->
  (nu = true /\ x = JNull) \/ exists n, x = JNum n /\ lo <= n < hi.
Proof.
  destruct x as [| |b|n|s]; cbv [checkInt violates min max nullable];
    try done.
  - destruct nu; [by left|done].
  - destruct (Z.ltb_spec n lo); [done|].
    destruct (Z.leb_spec hi n); [done|].
    intros _. right. exists n. split; [done|lia].
Qed.

Lemma checkLiteral_None lit x : checkLiteral lit x = None -> x = JStr lit.
Proof. unfold checkLiteral. by case_decide. Qed.

Lemma prop_Some (doc : JsObject) k v :
  prop doc k = v -> v <> JUndefined -> doc !! k = Some v.
Proof. unfold prop. destruct (doc !! k); simpl; congruence. Qed.

Lemma prop_insert (doc : JsObject) k k' v :
  prop (<[k := v]> doc) k' = if decide (k = k') then v else prop doc k'.
Proof. unfold prop. rewrite lookup_insert. by case_decide. Qed.

Lemma dom_insert_within (doc : JsObject) k v (keys : gset string) :
  k ∈ keys -> dom doc ⊆ keys -> dom (<[k := v]> doc) ⊆ keys.
Proof. rewrite dom_insert. set_solver. Qed.

Lemma dom_schema (doc : JsObject) (keys : list string) :
  dom doc ⊆ list_to_set keys ->
  Forall (fun k => prop doc k <> JUndefined) keys ->
  dom doc = list_to_set keys.
Proof.
  intros Hsub Hall. apply set_eq. intros k. split; [by apply Hsub|].
  rewrite elem_of_list_to_set, elem_of_dom. intros Hk.
  rewrite Forall_forall in Hall. specialize (Hall k Hk).
  exists (prop doc k). by apply prop_Some.
Qed.

Lemma signed_dom (X Y : gset string) k :
  k ∈ X -> {[k]} ∪ X = Y -> X = Y.
Proof. set_solver. Qed.

Lemma unsigned_dom (X Y : gset string) k :
  k ∉ X -> {[k]} ∪ X = Y -> X = Y ∖ {[k]}.
Proof. set_solver. Qed.

End CheckerFacts.

Section Es4Facts.
Context `{Crypto} `{CoreValidators}.
Import Checkers FormatEs4.

Lemma basic_validity_iff doc :
  _checkBasicDocumentValidity doc = Valid <->
  checkObj ES4_CORE_SCHEMA doc = None.
Proof.
  unfold _checkBasicDocumentValidity.
  by destruct (checkObj ES4_CORE_SCHEMA doc).
Qed.

Lemma basic_validity_shape doc :
  _checkBasicDocumentValidity doc = Valid -> Es4Shape doc.
Proof.
  rewrite basic_validity_iff. unfold ES4_CORE_SCHEMA.
  rewrite checkObj_None. intros (_ & Hdom & Hfields).
  repeat (apply Forall_cons_1 in Hfields as [? Hfields]). simpl in *.
  repeat match goal with
  | H : checkString _ _ = None |- _ => apply checkString_None in H as [? ?]
  | H : checkLiteral _ _ = None |- _ => apply checkLiteral_None in H
  | H : checkInt _ _ = None |- _ =>
      apply checkInt_None in H as [[? ?]|(? & ? & ?)]
  end; try discriminate.
  all: split; eauto.
  all: apply dom_schema; [done|].
  all: repeat apply Forall_cons_2; try apply Forall_nil_2; simpl.
  all: congruence.
Qed.

(** The fake signature is well-shaped, so a valid document stays valid
    when its signature is replaced by it. *)
Lemma basic_validity_fakeSig doc :
  _checkBasicDocumentValidity doc = Valid ->
  _checkBasicDocumentValidity (<["signature" := JStr fakeSignature]> doc)
  = Valid.
Proof.
  rewrite !basic_validity_iff. unfold ES4_CORE_SCHEMA.
  rewrite !checkObj_None. intros (Hundef & Hdom & Hfields).
  split; [|split].
  - by apply map_Forall_insert_2.
  - apply dom_insert_within; [|done]. simpl.
    rewrite !elem_of_union, !elem_of_singleton. tauto.
  - repeat (apply Forall_cons_1 in Hfields as [? Hfields]).
    repeat apply Forall_cons_2; try apply Forall_nil_2; simpl in *;
      rewrite prop_insert; simpl; done.
Qed.

End Es4Facts.

(** ** The helpers and the small checks on concrete inputs *)

Example includes_tilde : includes "/about/~@suzy/name" "~" = true.
Proof. reflexivity. Qed.

Example includes_other_author :
  includes "/about/~@suzy/name" "~@evil" = false.
Proof. reflexivity. Qed.

Example endsWith_slash : endsWith "/about/" "/" = true.
Proof. reflexivity. Qed.

Example endsWith_no_slash : endsWith "/about" "/" = false.
Proof. reflexivity. Qed.

Example toString_timestamp :
  toString (JNum 1700000000000000) = "1700000000000000".
Proof. by vm_compute. Qed.

Example path_permanent :
  FormatEs4._checkPathIsValid "/wiki/shared" JNull = Valid.
Proof. reflexivity. Qed.

Example path_ephemeral :
  FormatEs4._checkPathIsValid "/chat/!msg" (JNum 1700000600000000) = Valid.
Proof. reflexivity. Qed.

Example path_ephemeral_without_deleteAfter :
  FormatEs4._checkPathIsValid "/chat/!msg" JNull =
  invalid "when deleteAfter is null, path must not contain '!'".
Proof. reflexivity. Qed.

Example path_deleteAfter_without_bang :
  FormatEs4._checkPathIsValid "/wiki/shared" (JNum 1700000600000000) =
  invalid "when deleteAfter is set, path must contain '!'".
Proof. reflexivity. Qed.

Example path_rule_skipped_when_omitted :
  FormatEs4._checkPathIsValid "/chat/!msg" JUndefined = Valid.
Proof. reflexivity. Qed.

Example path_double_slash :
  FormatEs4._checkPathIsValid "/wiki//shared" JNull =
  invalid "invalid path: must not contain two consecutive slashes".
Proof. reflexivity. Qed.

Example path_of_an_author :
  FormatEs4._checkPathIsValid "/@suzy.bo5sotcn" JNull =
  invalid ("invalid path: must not start with " +:+
           quote +:+ "/@" +:+ quote) /\
  String.length
    ("invalid path: must not start with " +:+ quote +:+ "/@" +:+ quote) =
  38%nat.
Proof. split; reflexivity. Qed.

Example timestamp_at_cutoff :
  FormatEs4._checkTimestampIsOk (1700000000000000 + 600000000) None
    1700000000000000 = Valid.
Proof. reflexivity. Qed.

Example timestamp_beyond_cutoff :
  FormatEs4._checkTimestampIsOk (1700000000000000 + 600000001) None
    1700000000000000 = invalid "timestamp too far in the future".
Proof. reflexivity. Qed.

Example timestamp_expired :
  FormatEs4._checkTimestampIsOk 1700000000000000 (Some 1700000000000005)
    1700000000000006 = invalid "ephemeral doc has expired".
Proof. reflexivity. Qed.

Example fakeSignature_length :
  Z.of_nat (String.length FormatEs4.fakeSignature) = FormatEs4.SIG_STR_LEN.
Proof. reflexivity. Qed.

(** The range of [checkInt] as modelled: [min] is accepted, [max] is
    not. *)
Example checkInt_at_min :
  Checkers.checkInt
    {| Checkers.min := Some FormatEs4.MIN_TIMESTAMP;
       Checkers.max := Some FormatEs4.MAX_TIMESTAMP;
       Checkers.nullable := false |} (JNum (10 ^ 13)) = None.
Proof. reflexivity. Qed.

Example checkInt_below_max :
  Checkers.checkInt
    {| Checkers.min := Some FormatEs4.MIN_TIMESTAMP;
       Checkers.max := Some FormatEs4.MAX_TIMESTAMP;
       Checkers.nullable := false |} (JNum (2 ^ 53 - 3)) = None.
Proof. reflexivity. Qed.

Example checkInt_at_max :
  Checkers.checkInt
    {| Checkers.min := Some FormatEs4.MIN_TIMESTAMP;
       Checkers.max := Some FormatEs4.MAX_TIMESTAMP;
       Checkers.nullable := false |} (JNum (2 ^ 53 - 2))
  = Some "integer too large".
Proof. reflexivity. Qed.

(** ** Hashing *)

Section Hashing.
Context `{Crypto} `{CoreValidators}.
Import Checkers FormatEs4 Canonical.

Lemma sortedFields_of (doc : JsObject) (names : list string) :
  Sorted String.le names -> NoDup names ->
  dom doc = list_to_set names -> sortedFields doc = names.
Proof.
  intros Hsorted Hnodup Hdom. unfold sortedFields. rewrite Hdom.
  apply (Sorted_unique String.le).
  - apply Sorted_merge_sort; apply _.
  - done.
  - by rewrite merge_sort_Permutation, elements_list_to_set.
Qed.

(** The hash of a document that passes the basic check once the fake
    signature is in place, whatever its own signature is, as for the
    documents that [signDocument] is given. *)
Lemma hashDocument_canonical_unsigned doc :
  _checkBasicDocumentValidity (<["signature" := JStr fakeSignature]> doc)
    = Valid ->
  hashDocument doc = Ok (sha256base32 (canonicalForm doc)).
Proof.
  intros Hvalid. unfold hashDocument. rewrite Hvalid. simpl.
  destruct (basic_validity_shape _ Hvalid) as
    [Hdom Hformat [a Ha] [c Hc] [ch Hch] Hda [p Hp] _ [t [Ht _]] [w Hw]].
  rewrite prop_insert in Hformat, Ha, Hc, Hch, Hda, Hp, Ht, Hw.
  simpl in Hformat, Ha, Hc, Hch, Hda, Hp, Ht, Hw.
  do 2 f_equal. unfold canonicalForm.
  assert (Hfields :
    sortedFields doc =
      ["author"; "content"; "contentHash"; "deleteAfter"; "format"; "path";
       "signature"; "timestamp"; "workspace"] \/
    sortedFields doc =
      ["author"; "content"; "contentHash"; "deleteAfter"; "format"; "path";
       "timestamp"; "workspace"]).
  { rewrite dom_insert_L in Hdom.
    destruct (decide ("signature" ∈ dom doc)) as [Hin|Hout].
    - left. apply sortedFields_of; [by_computation..|].
      rewrite (signed_dom _ _ _ Hin Hdom). unfold validKeys. simpl.
      by_computation.
    - right. apply sortedFields_of; [by_computation..|].
      rewrite (unsigned_dom _ _ _ Hout Hdom). unfold validKeys. simpl.
      by_computation. }
  destruct Hfields as [-> | ->]; unfold line; simpl.
  all: rewrite Ha, Hch, Hformat, Hp, Ht, Hw; simpl.
  all: rewrite String_app_nil_r, <- !String_app_assoc.
  all: destruct Hda as [->|(n & -> & _)]; simpl;
         by rewrite <- ?String_app_assoc.
Qed.

(** C1: for every document that passes the basic validity check,
    [hashDocument] returns the base32 SHA-256 of the canonical form: the
    lines [name TAB value NL] of the fields in lexicographic order of
    their names, without [content], [signature] and the fields that are
    [null]. *)
Theorem hashDocument_canonical doc :
  _checkBasicDocumentValidity doc = Valid ->
  hashDocument doc = Ok (sha256base32 (canonicalForm doc)).
Proof.
  intros Hvalid. apply hashDocument_canonical_unsigned.
  by apply basic_validity_fakeSig.
Qed.

End Hashing.

Lemma hashDocument_canonical_witness :
  @FormatEs4.hashDocument constantCrypto permissiveValidators aboutDoc =
  Ok (@sha256base32 constantCrypto (Canonical.canonicalForm aboutDoc)).
Proof.
  apply (@hashDocument_canonical constantCrypto permissiveValidators).
  by vm_compute.
Defined.

Section HashingSignature.
Context `{Crypto} `{CoreValidators}.
Import Checkers FormatEs4.

(** The hash is that of the document without its signature. *)
Lemma hashDocument_without_signature (d : JsObject) :
  hashDocument d = hashDocument (delete "signature" d).
Proof.
  assert (Hprop : forall k, k <> "signature" ->
                            prop (delete "signature" d) k = prop d k).
  { intros k Hk. unfold prop. by rewrite lookup_delete_ne. }
  unfold hashDocument. rewrite insert_delete_eq. by rewrite !Hprop.
Qed.

(** C10: two documents that are identical in every field except
    [signature] have the same hash; the signature a document carries
    never reaches the hash. *)
Theorem hashDocument_ignores_signature (d1 d2 : JsObject) :
  delete "signature" d1 = delete "signature" d2 ->
  hashDocument d1 = hashDocument d2.
Proof.
  intros Heq.
  rewrite (hashDocument_without_signature d1).
  rewrite (hashDocument_without_signature d2).
  by rewrite Heq.
Qed.

(** Signing changes the signature only, so it keeps the hash. *)
Lemma signDocument_keeps_hash keypair d d' :
  signDocument keypair d = Ok d' -> hashDocument d' = hashDocument d.
Proof.
  unfold signDocument.
  destruct (hashDocument d) as [h| |] eqn:Hh; try done.
  simpl. destruct (sign keypair h) as [sg| |]; try done. simpl.
  intros [= <-].
  rewrite hashDocument_without_signature, delete_insert_eq.
  by rewrite <- hashDocument_without_signature.
Qed.

End HashingSignature.

Lemma hashDocument_ignores_signature_witness :
  @FormatEs4.hashDocument constantCrypto permissiveValidators aboutDoc =
  @FormatEs4.hashDocument constantCrypto permissiveValidators
    (<["signature" := JStr FormatEs4.fakeSignature]> aboutDoc).
Proof.
  apply (@hashDocument_ignores_signature constantCrypto permissiveValidators).
  symmetry. apply delete_insert_eq.
Defined.

(** ** The validity checks *)

Section Validity.
Context `{Crypto} `{CoreValidators}.
Import Checkers FormatEs4.

(** The checks that run first never throw. *)
Lemma _checkBasicDocumentValidity_total doc :
  _checkBasicDocumentValidity doc = Valid \/
  exists e, _checkBasicDocumentValidity doc = Err e.
Proof.
  unfold _checkBasicDocumentValidity, invalid.
  destruct (checkObj ES4_CORE_SCHEMA doc); eauto.
Qed.

Lemma _checkTimestampIsOk_total timestamp deleteAfter now :
  _checkTimestampIsOk timestamp deleteAfter now = Valid \/
  exists e, _checkTimestampIsOk timestamp deleteAfter now = Err e.
Proof.
  unfold _checkTimestampIsOk, invalid.
  repeat (case_bool_decide || case_match); eauto.
Qed.

Lemma _checkTimestampIsOk_Valid timestamp deleteAfter now :
  _checkTimestampIsOk timestamp deleteAfter now = Valid ->
  timestamp <= now + FUTURE_CUTOFF_MICROSECONDS.
Proof.
  unfold _checkTimestampIsOk. case_bool_decide; [done|]. lia.
Qed.

Lemma checkDocumentIsValid_firstFailure Date_now doc now :
  checkDocumentIsValid Date_now doc now =
  firstFailure (checksInOrder Date_now doc now).
Proof.
  unfold checkDocumentIsValid, checksInOrder, effectiveNow.
  cbn [firstFailure]. repeat next_check.
Qed.

Lemma firstFailure_at checks i failed :
  checks !! i = Some failed -> failed <> Valid ->
  Forall (fun c => c = Valid) (take i checks) ->
  firstFailure checks = failed.
Proof.
  revert i. induction checks as [|c checks IH]; intros [|i]; try done.
  - simpl. intros [= ->] Hfailed _. by destruct failed as [[]| |].
  - simpl. intros Hi Hfailed [-> Hpassed]%Forall_cons_1. eauto.
Qed.

Lemma firstFailure_Valid checks :
  firstFailure checks = Valid <-> Forall (fun c => c = Valid) checks.
Proof.
  induction checks as [|[[]| |] checks IH]; simpl.
  - split; [constructor|done].
  - rewrite Forall_cons, IH. tauto.
  - split; [done|]. by intros [? _]%Forall_cons_1.
  - split; [done|]. by intros [? _]%Forall_cons_1.
Qed.

(** C3: [checkDocumentIsValid] runs the basic schema check, the
    timestamp check, the author-can-write-to-path check, the path-shape
    check, the author address check, the share address check, the
    signature check and the content hash check in this order: when the
    checks before one pass and that one fails, its error is the result,
    and when all pass the result is [true]. *)
Theorem checkDocumentIsValid_order Date_now doc now :
  (forall i failed,
      checksInOrder Date_now doc now !! i = Some failed ->
      failed <> Valid ->
      Forall (fun c => c = Valid) (take i (checksInOrder Date_now doc now)) ->
      checkDocumentIsValid Date_now doc now = failed) /\
  (Forall (fun c => c = Valid) (checksInOrder Date_now doc now) ->
   checkDocumentIsValid Date_now doc now = Valid).
Proof.
  rewrite checkDocumentIsValid_firstFailure. split.
  - intros i failed. apply firstFailure_at.
  - apply firstFailure_Valid.
Qed.

Lemma checkDocumentIsValid_Valid Date_now doc now :
  checkDocumentIsValid Date_now doc now = Valid <->
  Forall (fun c => c = Valid) (checksInOrder Date_now doc now).
Proof. rewrite checkDocumentIsValid_firstFailure. apply firstFailure_Valid. Qed.

(** C4: a document is accepted only if its timestamp lies in
    [10^13, 2^53-2) and is at most 10 minutes (6*10^8 microseconds)
    beyond [now]; with a timestamp outside this range or beyond the
    cutoff the result is a [ValidationError]. *)
Theorem checkDocumentIsValid_timestamp Date_now doc now :
  (checkDocumentIsValid Date_now doc now = Valid ->
   exists ts, prop doc "timestamp" = JNum ts /\
     10 ^ 13 <= ts < 2 ^ 53 - 2 /\
     ts <= effectiveNow Date_now now + 6 * 10 ^ 8) /\
  (forall ts, prop doc "timestamp" = JNum ts ->
     ~ (10 ^ 13 <= ts < 2 ^ 53 - 2 /\
        ts <= effectiveNow Date_now now + 6 * 10 ^ 8) ->
     exists e, checkDocumentIsValid Date_now doc now = Err e).
Proof.
  assert (Hbounds : MIN_TIMESTAMP = 10 ^ 13 /\ MAX_TIMESTAMP = 2 ^ 53 - 2 /\
                    FUTURE_CUTOFF_MICROSECONDS = 6 * 10 ^ 8) by done.
  destruct Hbounds as (<- & <- & <-).
  assert (Hthen : _checkBasicDocumentValidity doc = Valid ->
    _checkTimestampIsOk (numberOf (prop doc "timestamp"))
      (nullableNumberOf (prop doc "deleteAfter"))
      (effectiveNow Date_now now) = Valid ->
    exists ts, prop doc "timestamp" = JNum ts /\
      MIN_TIMESTAMP <= ts < MAX_TIMESTAMP /\
      ts <= effectiveNow Date_now now + FUTURE_CUTOFF_MICROSECONDS).
  { intros [_ _ _ _ _ _ _ _ (ts & Hts & Hrange) _]%basic_validity_shape.
    rewrite Hts. intros Hcutoff.
    apply _checkTimestampIsOk_Valid in Hcutoff. by exists ts. }
  split.
  - rewrite checkDocumentIsValid_Valid. unfold checksInOrder.
    intros Hall. apply Forall_cons_1 in Hall as [Hbasic Hall].
    apply Forall_cons_1 in Hall as [Htime _]. auto.
  - intros ts Hts Hout. rewrite checkDocumentIsValid_firstFailure.
    unfold checksInOrder. cbn [firstFailure].
    destruct (_checkBasicDocumentValidity_total doc) as [Hb|[e Hb]];
      rewrite Hb; [|by exists e].
    destruct (_checkTimestampIsOk_total (numberOf (prop doc "timestamp"))
      (nullableNumberOf (prop doc "deleteAfter"))
      (effectiveNow Date_now now)) as [Ht|[e Ht]]; [|rewrite Ht; by exists e].
    destruct (Hthen Hb Ht) as (ts' & Hts' & ?). congruence.
Qed.

Lemma contains_includes s t : contains s t <-> includes s t = true.
Proof. symmetry. apply includes_spec. Qed.

Lemma not_contains_includes s t : ~ contains s t <-> includes s t = false.
Proof. rewrite contains_includes. by destruct (includes s t). Qed.

Lemma _checkPathIsValid_total path deleteAfter :
  _checkPathIsValid path deleteAfter = Valid \/
  exists e, _checkPathIsValid path deleteAfter = Err e.
Proof.
  unfold _checkPathIsValid, invalid.
  repeat match goal with
  | |- context [if ?b then _ else _] => destruct b
  end; eauto.
Qed.

Lemma _checkPathIsValid_Valid path deleteAfter :
  deleteAfter <> JUndefined ->
  _checkPathIsValid path deleteAfter = Valid ->
  (deleteAfter <> JNull <-> contains path "!").
Proof.
  intros Hdef. unfold _checkPathIsValid. rewrite contains_includes.
  rewrite (bool_decide_eq_true_2 _ Hdef).
  destruct (negb (startsWith path "/")); [done|].
  destruct (endsWith path "/"); [done|].
  destruct (startsWith path "/@"); [done|].
  destruct (includes path "//"); [done|].
  destruct (includes path "!"), (decide (deleteAfter = JNull)) as [Hn|Hn].
  - by rewrite (bool_decide_eq_true_2 _ Hn).
  - done.
  - rewrite (bool_decide_eq_false_2 _ (fun Hd => Hd Hn)).
    intros _. split; [intros Hd; by destruct (Hd Hn)|done].
  - by rewrite (bool_decide_eq_true_2 _ Hn).
Qed.

Lemma reachesPathCheck_inv Date_now doc now :
  reachesPathCheck Date_now doc now ->
  _checkBasicDocumentValidity doc = Valid /\
  checkDocumentIsValid Date_now doc now =
    firstFailure (drop 3 (checksInOrder Date_now doc now)).
Proof.
  unfold reachesPathCheck. rewrite checkDocumentIsValid_firstFailure.
  unfold checksInOrder. cbn [take drop firstFailure]. intros Hall.
  apply Forall_cons_1 in Hall as [Hbasic Hall].
  apply Forall_cons_1 in Hall as [Htime Hall].
  apply Forall_cons_1 in Hall as [Hwrite _].
  by rewrite Hbasic, Htime, Hwrite.
Qed.

(** C5: a document whose [deleteAfter] is not [null] is accepted only if
    its path contains [!], one whose [deleteAfter] is [null] only if its
    path does not; a document that reaches the path-shape check and
    breaks either direction gets a [ValidationError]. *)
Theorem checkDocumentIsValid_ephemeral Date_now doc now :
  (checkDocumentIsValid Date_now doc now = Valid ->
     (prop doc "deleteAfter" <> JNull ->
        contains (stringOf (prop doc "path")) "!") /\
     (prop doc "deleteAfter" = JNull ->
        ~ contains (stringOf (prop doc "path")) "!")) /\
  (reachesPathCheck Date_now doc now ->
     (prop doc "deleteAfter" <> JNull /\
        ~ contains (stringOf (prop doc "path")) "!") \/
     (prop doc "deleteAfter" = JNull /\
        contains (stringOf (prop doc "path")) "!") ->
     exists e, checkDocumentIsValid Date_now doc now = Err e).
Proof.
  assert (Hdef : _checkBasicDocumentValidity doc = Valid ->
                 prop doc "deleteAfter" <> JUndefined).
  { intros [_ _ _ _ _ Hda _ _ _ _]%basic_validity_shape.
    destruct Hda as [->|(n & -> & _)]; done. }
  split.
  - rewrite checkDocumentIsValid_Valid. unfold checksInOrder. intros Hall.
    apply Forall_cons_1 in Hall as [Hbasic Hall].
    do 2 apply Forall_cons_1 in Hall as [_ Hall].
    apply Forall_cons_1 in Hall as [Hpath _].
    apply _checkPathIsValid_Valid in Hpath; [|auto]. tauto.
  - intros [Hbasic ->]%reachesPathCheck_inv Hbroken.
    unfold checksInOrder. cbn [drop firstFailure].
    destruct (_checkPathIsValid_total (stringOf (prop doc "path"))
      (prop doc "deleteAfter")) as [Hpath|[e Hpath]];
      [|rewrite Hpath; by exists e].
    apply _checkPathIsValid_Valid in Hpath; [|auto]. tauto.
Qed.

Lemma _checkAuthorCanWriteToPath_denied author path :
  contains path "~" -> ~ contains path ("~" +:+ author) ->
  exists e, _checkAuthorCanWriteToPath author path = Err e.
Proof.
  rewrite contains_includes, not_contains_includes.
  unfold _checkAuthorCanWriteToPath, invalid. intros -> ->. simpl. eauto.
Qed.

(** C6: an author cannot write to a path that contains [~] but not [~]
    followed by the author's address: the author-can-write-to-path check
    returns a [ValidationError], and so does [checkDocumentIsValid] for a
    document by that author at that path; a path without [~] passes the
    check for every author. *)
Theorem _checkAuthorCanWriteToPath_tilde :
  (forall author path,
      contains path "~" -> ~ contains path ("~" +:+ author) ->
      exists e, _checkAuthorCanWriteToPath author path = Err e) /\
  (forall Date_now doc now author path,
      prop doc "author" = JStr author -> prop doc "path" = JStr path ->
      contains path "~" -> ~ contains path ("~" +:+ author) ->
      exists e, checkDocumentIsValid Date_now doc now = Err e) /\
  (forall author path,
      ~ contains path "~" -> _checkAuthorCanWriteToPath author path = Valid).
Proof.
  split; [|split].
  - apply _checkAuthorCanWriteToPath_denied.
  - intros Date_now doc now author path Hauthor Hpath Htilde Hother.
    rewrite checkDocumentIsValid_firstFailure.
    unfold checksInOrder. cbn [firstFailure].
    destruct (_checkBasicDocumentValidity_total doc) as [Hb|[e Hb]];
      rewrite Hb; [|by exists e].
    destruct (_checkTimestampIsOk_total (numberOf (prop doc "timestamp"))
      (nullableNumberOf (prop doc "deleteAfter"))
      (effectiveNow Date_now now)) as [Ht|[e Ht]];
      rewrite Ht; [|by exists e].
    rewrite Hauthor, Hpath. simpl.
    destruct (_checkAuthorCanWriteToPath_denied author path Htilde Hother)
      as [e ->].
    by exists e.
  - intros author path. rewrite not_contains_includes.
    unfold _checkAuthorCanWriteToPath. by intros ->.
Qed.

End Validity.

(** The checks on concrete documents. *)

Example aboutDoc_valid :
  @FormatEs4.checkDocumentIsValid constantCrypto permissiveValidators
    0 aboutDoc aboutNow = Valid.
Proof. by vm_compute. Qed.

Example chatDoc_valid :
  @FormatEs4.checkDocumentIsValid constantCrypto permissiveValidators
    0 chatDoc aboutNow = Valid.
Proof. by vm_compute. Qed.

(** Of two checks that would fail, the earlier one gives the error. *)
Example futureDoc_invalid :
  @FormatEs4.checkDocumentIsValid constantCrypto permissiveValidators
    0 futureDoc aboutNow = invalid "timestamp too far in the future".
Proof. by vm_compute. Qed.

Lemma checkDocumentIsValid_order_witness :
  @FormatEs4.checkDocumentIsValid constantCrypto permissiveValidators
    0 aboutDoc aboutNow = Valid.
Proof.
  apply (@checkDocumentIsValid_order constantCrypto permissiveValidators).
  by_computation.
Defined.

Lemma checkDocumentIsValid_timestamp_witness :
  exists ts, prop aboutDoc "timestamp" = JNum ts /\
    10 ^ 13 <= ts < 2 ^ 53 - 2 /\
    ts <= @effectiveNow 0 aboutNow + 6 * 10 ^ 8.
Proof.
  apply (@checkDocumentIsValid_timestamp constantCrypto permissiveValidators).
  by vm_compute.
Defined.

Lemma checkDocumentIsValid_ephemeral_witness :
  (prop chatDoc "deleteAfter" <> JNull ->
     contains (stringOf (prop chatDoc "path")) "!") /\
  (prop chatDoc "deleteAfter" = JNull ->
     ~ contains (stringOf (prop chatDoc "path")) "!").
Proof.
  apply (@checkDocumentIsValid_ephemeral constantCrypto permissiveValidators
           0 chatDoc aboutNow).
  by vm_compute.
Defined.

Lemma _checkAuthorCanWriteToPath_tilde_witness :
  exists e,
    FormatEs4._checkAuthorCanWriteToPath
      "@evil.bo5sotcncvkr7p4c3lnexxpb4hjqi5tcxcov5b4irbnnz2teoifub"
      ("/about/~" +:+ address suzy +:+ "/name") = Err e.
Proof.
  apply (@_checkAuthorCanWriteToPath_tilde constantCrypto permissiveValidators).
  - exists "/about/", (String.app (address suzy) "/name"). reflexivity.
  - rewrite not_contains_includes. by vm_compute.
Defined.

(** ** Extra fields and wiping *)

Section ExtraFieldsFacts.
Context `{Crypto} `{CoreValidators}.
Import Checkers FormatEs4.

Lemma removeExtraFields_Obj (x : JsObject) :
  removeExtraFields (Obj x) = splitFields x.
Proof.
  unfold removeExtraFields. cbn [isPlainObject negb entries].
  apply (map_fold_weak_ind (fun r (m : JsObject) => r = splitFields m)).
  - unfold splitFields. rewrite decide_True by apply map_Forall_empty.
    unfold schemaFields, extraFields. by rewrite !map_filter_empty.
  - intros key val m r Hfresh ->.
    unfold removeExtraFields_step, splitFields.
    assert (Hins : extrasUnderscored (<[key := val]> m) <->
              ((key ∈ validKeys) \/ (startsWith key "_" = true)) /\
              extrasUnderscored m)
      by exact (map_Forall_insert _ m key val Hfresh).
    destruct (decide (extrasUnderscored m)) as [Hm|Hm]; simpl.
    + destruct (decide (key ∈ validKeys)) as [Hkey|Hkey].
      * rewrite decide_True by (apply Hins; auto).
        unfold schemaFields, extraFields.
        rewrite map_filter_insert_True by done.
        rewrite map_filter_insert_not by (intros ? Hn; by apply Hn).
        done.
      * destruct (startsWith key "_") eqn:Hstart; simpl.
        -- rewrite decide_True by (apply Hins; auto).
           unfold schemaFields, extraFields.
           rewrite map_filter_insert_not by done.
           rewrite map_filter_insert_True by done.
           done.
        -- rewrite decide_False; [done|].
           rewrite Hins. intros [[?|?] _]; [done|congruence].
    + rewrite decide_False; [done|]. rewrite Hins. tauto.
Qed.

Lemma prop_schemaFields (x : JsObject) key :
  key ∈ validKeys -> prop (schemaFields x) key = prop x key.
Proof.
  intros Hkey. unfold prop, schemaFields.
  destruct (x !! key) as [v|] eqn:Hx.
  - by rewrite (map_lookup_filter_Some_2 _ _ _ _ Hx Hkey).
  - by rewrite map_lookup_filter_None_2 by auto.
Qed.

Lemma dom_schemaFields (x : JsObject) : dom (schemaFields x) ⊆ validKeys.
Proof.
  intros key [v Hv]%elem_of_dom.
  by apply map_lookup_filter_Some in Hv as [_ ?].
Qed.

(** C7, amended: when every field outside the schema has a name that
    begins with an underscore, [removeExtraFields] returns the schema
    fields of the input as [doc] and its other fields as [extras];
    when some field outside the schema has another name, or the input
    is not a plain object, it returns a [ValidationError] and no
    document.  A returned [doc] never has a field outside the schema. *)
Theorem removeExtraFields_strips :
  (forall x : JsObject,
      extrasUnderscored x ->
      removeExtraFields (Obj x) =
        Ok {| doc := schemaFields x; extras := extraFields x |}) /\
  (forall x : JsObject,
      ~ extrasUnderscored x -> removeExtraFields (Obj x) = underscoreError) /\
  (forall v : JsVal,
      removeExtraFields (Prim v) =
        invalid "doc is not a plain javascript object") /\
  (forall x r, removeExtraFields x = Ok r -> dom (doc r) ⊆ validKeys).
Proof.
  split; [|split; [|split]].
  - intros x Hx. rewrite removeExtraFields_Obj. unfold splitFields.
    by rewrite decide_True.
  - intros x Hx. rewrite removeExtraFields_Obj. unfold splitFields.
    by rewrite decide_False.
  - done.
  - intros [v|x] r; [done|]. rewrite removeExtraFields_Obj.
    unfold splitFields. case_decide; [|done].
    intros [= <-]. apply dom_schemaFields.
Qed.

Lemma signDocument_Ok keypair d d' :
  signDocument keypair d = Ok d' <->
  exists h sg, hashDocument d = Ok h /\ sign keypair h = Ok sg /\
               d' = <["signature" := JStr sg]> d.
Proof.
  unfold signDocument.
  destruct (hashDocument d) as [h| |]; cbn [mbind Outcome_bind].
  - destruct (sign keypair h) as [sg| |] eqn:Hsign;
      cbn [mbind Outcome_bind].
    + split.
      * intros [= <-]. by exists h, sg.
      * intros (h' & sg' & [= <-] & Hsign' & ->). congruence.
    + split; [done|]. intros (h' & sg' & [= <-] & Hsign' & _). congruence.
    + split; [done|]. intros (h' & sg' & [= <-] & Hsign' & _). congruence.
  - split; [done|]. by intros (? & ? & ? & _).
  - split; [done|]. by intros (? & ? & ? & _).
Qed.

Lemma wipeDocument_Ok keypair d d' :
  wipeDocument keypair d = Ok d' <->
  (prop d "content" = JStr "" /\ d' = d) \/
  (lengthIsZero (prop d "content") = Ok false /\ extrasUnderscored d /\
   signDocument keypair (emptied d) = Ok d').
Proof.
  unfold wipeDocument, lengthIsZero.
  destruct (prop d "content") as [| |b|n|s];
    cbn [mbind Outcome_bind].
  1,2: split; [done|]; by intros [[? _]|[? _]].
  3: destruct s as [|a s].
  3: { split; [intros [= <-]; by left|].
       intros [[_ ->]|[Hf _]]; [done|]. by vm_compute in Hf. }
  all: rewrite removeExtraFields_Obj; unfold splitFields.
  all: destruct (decide (extrasUnderscored d)) as [Hd|Hd];
         cbn [mbind Outcome_bind doc].
  all: split; try (intros ?; by right); try done.
  all: intros [[? _]|(_ & ? & ?)]; done.
Qed.

(** C2: the document [wipeDocument] returns has the path and the author
    of the original and empty content, but its timestamp is the
    timestamp of the original, not a later one. *)
Theorem wipeDocument_timestamp keypair d d' :
  wipeDocument keypair d = Ok d' ->
  prop d' "path" = prop d "path" /\
  prop d' "author" = prop d "author" /\
  prop d' "content" = JStr "" /\
  prop d' "timestamp" = prop d "timestamp".
Proof.
  assert (Hkeys : Forall (fun k => k ∈ validKeys)
                    ["path"; "author"; "timestamp"]).
  { repeat apply Forall_cons_2; try apply Forall_nil_2;
      unfold validKeys; simpl;
      rewrite !elem_of_union, !elem_of_singleton; tauto. }
  apply Forall_cons_1 in Hkeys as [Hpath Hkeys].
  apply Forall_cons_1 in Hkeys as [Hauthor Hkeys].
  apply Forall_cons_1 in Hkeys as [Htime _].
  rewrite wipeDocument_Ok.
  intros [[Hempty ->]|(_ & _ & Hsigned)].
  { repeat split. exact Hempty. }
  apply signDocument_Ok in Hsigned as (h & sg & _ & _ & ->).
  unfold emptied. rewrite !prop_insert.
  repeat (rewrite decide_False by discriminate).
  rewrite decide_True by reflexivity.
  rewrite !prop_schemaFields by assumption.
  repeat split.
Qed.

End ExtraFieldsFacts.

Lemma removeExtraFields_strips_witness :
  @FormatEs4.removeExtraFields permissiveValidators (Obj indexedDoc) =
    Ok {| FormatEs4.doc := @schemaFields permissiveValidators indexedDoc;
          FormatEs4.extras := @extraFields permissiveValidators indexedDoc |}.
Proof.
  apply (@removeExtraFields_strips permissiveValidators).
  by_computation.
Defined.

(** C7 as stated fails: with a field outside the schema whose name does
    not begin with an underscore there is no document at all. *)
Lemma removeExtraFields_strips_counterexample :
  ~ @stripsSilently permissiveValidators colouredDoc.
Proof.
  intros (r & Hr & _). rewrite removeExtraFields_Obj in Hr.
  unfold splitFields in Hr. rewrite decide_False in Hr; [done|].
  by_computation.
Qed.

Example removeExtraFields_colouredDoc :
  @FormatEs4.removeExtraFields permissiveValidators (Obj colouredDoc) =
    invalid "extra document fields must have names starting with an underscore".
Proof.
  rewrite removeExtraFields_Obj. unfold splitFields.
  rewrite decide_False; [done|]. by_computation.
Qed.

Lemma wipeDocument_timestamp_witness :
  exists d',
    @FormatEs4.wipeDocument constantCrypto permissiveValidators suzy aboutDoc
      = Ok d' /\
    prop d' "content" = JStr "" /\
    prop d' "timestamp" = JNum 1700000000000000.
Proof.
  assert (Hwiped : exists d',
    @FormatEs4.wipeDocument constantCrypto permissiveValidators suzy aboutDoc
      = Ok d').
  { eexists. apply wipeDocument_Ok. right. split; [by vm_compute|].
    split; [by_computation|].
    apply signDocument_Ok. exists constantHash, constantSignature.
    split; [|done].
    rewrite (@hashDocument_without_signature constantCrypto).
    unfold emptied. rewrite delete_insert_eq. by vm_compute. }
  destruct Hwiped as [d' Hd']. exists d'. split; [done|].
  destruct (@wipeDocument_timestamp constantCrypto permissiveValidators
              suzy aboutDoc d' Hd') as (_ & _ & Hcontent & Htime).
  split; [exact Hcontent|]. rewrite Htime. vm_compute. reflexivity.
Defined.

(** ** The SQLite document driver *)

Section DriverFacts.
Context `{DocDriverSqliteFfi.QueryEngine}.
Import DocDriverSqliteFfi.

(** *** After close *)

Lemma call_closed c w :
  _isClosed (driver w) = true -> call c w = (Throw ReplicaIsClosedError, w).
Proof.
  destruct w as [d fs]. simpl. intros Hclosed.
  destruct c; unfold call, reply, close, setConfig, getConfig,
    listConfigKeys, deleteConfig, getMaxLocalIndex, queryDocs,
    queryDocsSync, upsert, upsertSync, eraseExpiredDocs; simpl;
    by rewrite Hclosed.
Qed.

Lemma run_closed calls w :
  _isClosed (driver w) = true ->
  run calls w = (replicate (length calls) (Throw ReplicaIsClosedError), w).
Proof.
  intros Hclosed. induction calls as [|c calls IH]; [done|].
  cbn [run]. by rewrite call_closed, IH.
Qed.

Lemma close_closes erase w :
  _isClosed (driver (call (CallClose erase) w).2) = true.
Proof.
  destruct w as [d fs]. unfold call, close. simpl.
  by destruct (_isClosed d) eqn:Hclosed.
Qed.

(** C9: once [close] has been called, every later call of [setConfig],
    [getConfig], [listConfigKeys], [deleteConfig], [getMaxLocalIndex],
    [queryDocs], [upsert], [eraseExpiredDocs] and of [close] itself
    throws [ReplicaIsClosedError], and [isClosed] stays true. *)
Theorem closed_rejects_every_call erase w calls :
  isClosed (driver (call (CallClose erase) w).2) = true /\
  Forall (fun r => r = Throw ReplicaIsClosedError)
         (run calls (call (CallClose erase) w).2).1 /\
  isClosed (driver (run calls (call (CallClose erase) w).2).2) = true.
Proof.
  pose proof (close_closes erase w) as Hclosed.
  rewrite (run_closed calls _ Hclosed). simpl.
  split; [done|]. split; [|done].
  apply Forall_forall. by intros r [-> _]%elem_of_replicate.
Qed.

(** *** Local indexes *)

Lemma plusOne_le n : n <= plusOne n.
Proof. unfold plusOne. lia. Qed.

Lemma plusOne_exact n : exactIndex n -> plusOne n = n + 1.
Proof.
  unfold exactIndex, plusOne, roundToDouble.
  generalize (2 ^ 53). intros bound Hn.
  rewrite bool_decide_eq_true_2 by lia. lia.
Qed.

Lemma plusOne_stops : plusOne (2 ^ 53) = 2 ^ 53.
Proof. by vm_compute. Qed.

Lemma call_maxLocalIndex c w :
  _maxLocalIndex (driver w) <= _maxLocalIndex (driver (call c w).2) /\
  forall doc, (call c w).1 = Ok (Upserted doc) ->
    numberOf (prop doc "_localIndex") = plusOne (_maxLocalIndex (driver w)) /\
    _maxLocalIndex (driver (call c w).2) =
      plusOne (_maxLocalIndex (driver w)).
Proof.
  destruct w as [d fs]. pose proof (plusOne_le (_maxLocalIndex d)).
  destruct c; unfold call, reply, close, setConfig, getConfig,
    listConfigKeys, deleteConfig, getMaxLocalIndex, queryDocs,
    queryDocsSync, upsert, upsertSync, eraseExpiredDocs, withDb; simpl;
    destruct (_isClosed d); simpl; repeat case_match; simpl;
    (split; [lia|]); try done.
  intros doc' [= <-]. unfold withLocalIndex.
  rewrite prop_insert. simpl. done.
Qed.

Lemma run_maxLocalIndex calls w :
  _maxLocalIndex (driver w) <= _maxLocalIndex (driver (run calls w).2).
Proof.
  revert w. induction calls as [|c calls IH]; intros w; [simpl; lia|].
  cbn [run]. destruct (call_maxLocalIndex c w) as [Hmono _].
  destruct (call c w) as [r w']. specialize (IH w').
  destruct (run calls w') as [rs w'']. simpl in *. lia.
Qed.


Lemma MAX_LOCAL_INDEX_QUERY_empty db :
  docs db = ∅ -> MAX_LOCAL_INDEX_QUERY db = None.
Proof. unfold MAX_LOCAL_INDEX_QUERY. intros ->. apply map_fold_empty. Qed.

Lemma MAX_LOCAL_INDEX_QUERY_bound db :
  match MAX_LOCAL_INDEX_QUERY db with
  | Some n => map_Forall (fun _ row => localIndex row <= n) (docs db)
  | None => docs db = ∅
  end.
Proof.
  unfold MAX_LOCAL_INDEX_QUERY.
  apply (map_fold_weak_ind (fun acc (m : gmap string SqlDocRow) =>
    match acc with
    | Some n => map_Forall (fun _ row => localIndex row <= n) m
    | None => m = ∅
    end)); [done|].
  intros key row m acc _ Hacc. apply map_Forall_insert_2.
  - destruct acc; lia.
  - destruct acc as [n|]; [|subst; apply map_Forall_empty].
    eapply map_Forall_impl; [exact Hacc|]. simpl. intros; lia.
Qed.

Lemma constructed_indexesBounded share filename db :
  indexesBounded (constructed share filename db).
Proof.
  unfold indexesBounded, constructed. simpl.
  pose proof (MAX_LOCAL_INDEX_QUERY_bound db) as Hbound.
  destruct (MAX_LOCAL_INDEX_QUERY db); [done|].
  rewrite Hbound. apply map_Forall_empty.
Qed.

Lemma call_indexesBounded c w :
  indexesBounded (driver w) -> indexesBounded (driver (call c w).2).
Proof.
  destruct w as [d fs]. unfold indexesBounded.
  pose proof (plusOne_le (_maxLocalIndex d)).
  destruct c; unfold call, reply, close, setConfig, getConfig,
    listConfigKeys, deleteConfig, getMaxLocalIndex, queryDocs,
    queryDocsSync, upsert, upsertSync, eraseExpiredDocs, withDb; simpl;
    destruct (_isClosed d); simpl; repeat case_match; simpl; try done.
  - intros Hd. eapply map_Forall_impl; [exact Hd|]. simpl. intros; lia.
  - intros Hd. apply map_Forall_insert_2; simpl; [lia|].
    eapply map_Forall_impl; [exact Hd|]. simpl. intros; lia.
  - intros Hd key row [Hrow _]%map_lookup_filter_Some. by apply (Hd key).
Qed.

Lemma run_indexesBounded calls w :
  indexesBounded (driver w) -> indexesBounded (driver (run calls w).2).
Proof.
  revert w. induction calls as [|c calls IH]; intros w Hw; [done|].
  cbn [run]. pose proof (call_indexesBounded c w Hw) as Hc.
  destruct (call c w) as [r w']. specialize (IH w' Hc).
  by destruct (run calls w') as [rs w''].
Qed.


End DriverFacts.



Example sweptDriver_index :
  DocDriverSqliteFfi.docs (DocDriverSqliteFfi._db sweptDriver) = ∅ /\
  (DocDriverSqliteFfi.getMaxLocalIndex sweptDriver).1 = Ok 0.
Proof. split; vm_compute; reflexivity. Qed.

(** Two upserts around other calls, then a close and a third upsert. *)
Example run_assigns_0_1 :
  DocDriverSqliteFfi.assignedIndexes
    (@DocDriverSqliteFfi.run selectAll
       [ DocDriverSqliteFfi.CallUpsert aboutDoc None;
         DocDriverSqliteFfi.CallGetMaxLocalIndex;
         DocDriverSqliteFfi.CallUpsert chatDoc None;
         DocDriverSqliteFfi.CallClose false;
         DocDriverSqliteFfi.CallUpsert aboutDoc None ]
       {| DocDriverSqliteFfi.driver := memoryDriver;
          DocDriverSqliteFfi.files := ∅ |}).1
  = [0; 1].
Proof. by vm_compute. Qed.

(** An upsert whose statement throws leaves a gap: the next upsert is
    given the index after the one that was skipped. *)
Example run_skips_an_index :
  DocDriverSqliteFfi.assignedIndexes
    (@DocDriverSqliteFfi.run selectAll
       [ DocDriverSqliteFfi.CallUpsert aboutDoc None;
         DocDriverSqliteFfi.CallUpsert chatDoc
           (Some (OtherError "disk I/O error"));
         DocDriverSqliteFfi.CallUpsert chatDoc None ]
       {| DocDriverSqliteFfi.driver := memoryDriver;
          DocDriverSqliteFfi.files := ∅ |}).1
  = [0; 2].
Proof. by vm_compute. Qed.

(** ** More on strings *)

Lemma String_rev_app_acc (s acc : string) :
  String.rev_app s acc = String.rev_app s "" +:+ acc.
Proof.
  revert acc. induction s as [|a s IH]; intros acc; [done|].
  simpl. rewrite (IH (String a acc)), (IH (String a "")).
  by rewrite <- String_app_assoc.
Qed.

Lemma String_rev_cons (a : ascii) (s : string) :
  String.rev (String a s) = String.rev s +:+ String a "".
Proof. unfold String.rev. simpl. apply String_rev_app_acc. Qed.

Lemma String_rev_app (s t : string) :
  String.rev (s +:+ t) = String.rev t +:+ String.rev s.
Proof.
  induction s as [|a s IH].
  - simpl. by rewrite String_app_nil_r.
  - change (String a s +:+ t) with (String a (s +:+ t)).
    rewrite !String_rev_cons, IH. by rewrite String_app_assoc.
Qed.

Lemma String_rev_involutive (s : string) : String.rev (String.rev s) = s.
Proof.
  induction s as [|a s IH]; [done|].
  by rewrite String_rev_cons, String_rev_app, IH.
Qed.

(** [endsWith s t] holds exactly when [s] is some string followed by
    [t]. *)
Lemma endsWith_spec (s t : string) :
  endsWith s t = true <-> exists pre, s = pre +:+ t.
Proof.
  unfold endsWith. rewrite prefix_app. split.
  - intros [post Hpost]. exists (String.rev post).
    rewrite <- (String_rev_involutive s), Hpost, String_rev_app.
    by rewrite String_rev_involutive.
  - intros [pre ->]. exists (String.rev pre). apply String_rev_app.
Qed.

Lemma startsWith_spec (s t : string) :
  startsWith s t = true <-> exists post, s = t +:+ post.
Proof. apply prefix_app. Qed.

Section CheckString.
Import Checkers.

Lemma checkString_None_inv opts x :
  checkString opts x = None ->
  exists s, x = JStr s /\
    (forall b, minLen opts = Some b -> b <= Z.of_nat (String.length s)) /\
    (forall b, maxLen opts = Some b -> Z.of_nat (String.length s) <= b) /\
    (forall b, len opts = Some b -> Z.of_nat (String.length s) = b) /\
    (forall a, allowedChars opts = Some a -> onlyHasChars s a = true).
Proof.
  destruct x as [| | | |s]; try done. unfold checkString, violates.
  intros Hnone. exists s. split; [done|].
  destruct (minLen opts) as [lo|], (maxLen opts) as [hi|],
    (len opts) as [n|], (allowedChars opts) as [a|].
  all: repeat match type of Hnone with
       | (if ?b then _ else _) = _ => destruct b eqn:?; [done|]
       end.
  all: repeat split; intros ? [= <-]; try lia.
  all: try by destruct (onlyHasChars s _).
  all: try (destruct (Z.eqb_spec (Z.of_nat (String.length s)) n);
            [done|done]).
Qed.

End CheckString.

(** ** Characters that a string lacks *)

Lemma lacksChar_String c a s :
  lacksChar c (String a s) <-> c <> a /\ lacksChar c s.
Proof. unfold lacksChar. simpl. apply not_elem_of_cons. Qed.

Lemma lacksChar_nil c : lacksChar c "".
Proof. unfold lacksChar. simpl. apply not_elem_of_nil. Qed.

Lemma lacksChar_onlyHasChars c s allowed :
  lacksChar c allowed -> Checkers.onlyHasChars s allowed = true ->
  lacksChar c s.
Proof.
  unfold Checkers.onlyHasChars, Checkers.hasChar, lacksChar.
  intros Hallowed Hs Hc. rewrite forallb_forall in Hs.
  apply list_elem_of_In in Hc. specialize (Hs c Hc).
  by apply bool_decide_eq_true in Hs.
Qed.

Lemma lacksChar_pretty_N_go c x s :
  (forall digit, pretty_N_char digit <> c) ->
  lacksChar c s -> lacksChar c (pretty_N_go x s).
Proof.
  intros Hdigit. revert s.
  induction (N.lt_wf_0 x) as [x _ IH]; intros s Hs.
  assert (x = 0 \/ 0 < x)%N as [->|Hpos] by lia.
  - by rewrite pretty_N_go_0.
  - rewrite pretty_N_go_step by done. apply IH; [by apply N.div_lt|].
    apply lacksChar_String. split; [|done]. by apply not_eq_sym.
Qed.

Lemma lacksChar_pretty_Z c (n : Z) :
  (forall digit, pretty_N_char digit <> c) -> c <> "-"%char ->
  lacksChar c (pretty n).
Proof.
  intros Hdigit Hdash.
  assert (Hpos : forall p : positive, lacksChar c (pretty p)).
  { intros p. unfold pretty, pretty_positive, pretty, pretty_N.
    rewrite decide_False by done.
    apply lacksChar_pretty_N_go; [done|apply lacksChar_nil]. }
  destruct n as [|p|p]; unfold pretty, pretty_Z.
  - apply lacksChar_String. split; [|apply lacksChar_nil].
    apply not_eq_sym, (Hdigit 0%N).
  - apply Hpos.
  - apply lacksChar_String. split; [done|apply Hpos].
Qed.

Lemma lacksChar_nl_pretty (n : Z) : lacksChar "010" (pretty n).
Proof.
  apply lacksChar_pretty_Z; [|done].
  intros digit. unfold pretty_N_char. by repeat case_match.
Qed.

(** ** Lines *)

Lemma String_app_inv_head (pre s t : string) :
  pre +:+ s = pre +:+ t -> s = t.
Proof.
  induction pre as [|a pre IH]; [done|]. intros Heq.
  change (String a (pre +:+ s) = String a (pre +:+ t)) in Heq.
  injection Heq as Heq. auto.
Qed.

(** Two texts with the separator [c] after a part that lacks it have
    the same part before it and the same part after it. *)
Lemma separator_inj (c : ascii) (s1 s2 r1 r2 : string) :
  lacksChar c s1 -> lacksChar c s2 ->
  s1 +:+ String c r1 = s2 +:+ String c r2 -> s1 = s2 /\ r1 = r2.
Proof.
  revert s2. induction s1 as [|a s1 IH]; intros [|b s2] Hs1 Hs2 Heq.
  - change (String c r1 = String c r2) in Heq. by injection Heq.
  - change (String c r1 = String b (s2 +:+ String c r2)) in Heq.
    injection Heq as <- _. by apply lacksChar_String in Hs2 as [? _].
  - change (String a (s1 +:+ String c r1) = String c r2) in Heq.
    injection Heq as -> _. by apply lacksChar_String in Hs1 as [? _].
  - change (String a (s1 +:+ String c r1) = String b (s2 +:+ String c r2))
      in Heq.
    injection Heq as -> Hrest.
    apply lacksChar_String in Hs1 as [_ Hs1].
    apply lacksChar_String in Hs2 as [_ Hs2].
    by destruct (IH s2 Hs1 Hs2 Hrest) as [-> ->].
Qed.

(** Two texts that begin with a line begin with the same line. *)
Lemma line_inj (s1 s2 r1 r2 : string) :
  lacksChar "010" s1 -> lacksChar "010" s2 ->
  s1 +:+ nl +:+ r1 = s2 +:+ nl +:+ r2 -> s1 = s2 /\ r1 = r2.
Proof. apply separator_inj. Qed.

Lemma field_inj (name s1 s2 r1 r2 : string) :
  lacksChar "010" s1 -> lacksChar "010" s2 ->
  name +:+ tab +:+ s1 +:+ nl +:+ r1 = name +:+ tab +:+ s2 +:+ nl +:+ r2 ->
  s1 = s2 /\ r1 = r2.
Proof.
  intros Hs1 Hs2 Heq. apply String_app_inv_head in Heq.
  apply String_app_inv_head in Heq. by apply line_inj.
Qed.

(** ** Lists, sets and maps *)

Lemma filter_none {A} (P : A -> Prop) `{!forall x, Decision (P x)}
    (l : list A) :
  Forall (fun x => ~ P x) l -> filter P l = [].
Proof.
  induction 1 as [|x l Hx _ IH]; [done|].
  by rewrite filter_cons, decide_False.
Qed.

Lemma difference_subseteq_3 (X : gset string) a b c :
  X ∖ {[a]} ∖ {[b]} ∖ {[c]} ⊆ X.
Proof. intros x. rewrite !elem_of_difference. tauto. Qed.

Lemma validKeys_elem `{CoreValidators} k :
  k ∈ FormatEs4.validKeys <->
  k ∈ ["format"; "author"; "content"; "contentHash"; "deleteAfter"; "path";
       "signature"; "timestamp"; "workspace"].
Proof. unfold FormatEs4.validKeys. by rewrite elem_of_list_to_set. Qed.

(** ** Signing and the signature check *)

Section Signing.
Context `{Crypto} `{CoreValidators}.
Import Checkers FormatEs4.

Lemma _checkAuthorSignatureIsValid_Valid doc :
  _checkAuthorSignatureIsValid doc = Valid <->
  exists h, hashDocument doc = Ok h /\
    verify (stringOf (prop doc "author")) (stringOf (prop doc "signature")) h
      = Ok true.
Proof.
  unfold _checkAuthorSignatureIsValid.
  destruct (hashDocument doc) as [h| |]; cbn [mbind Outcome_bind tryCatch].
  - destruct (verify _ _ h) as [[]| |] eqn:Hv;
      cbn [mbind Outcome_bind tryCatch negb].
    + split; [by exists h|done].
    + split; [done|]. intros (h' & [= <-] & ?). congruence.
    + split; [done|]. intros (h' & [= <-] & ?). congruence.
    + split; [done|]. intros (h' & [= <-] & ?). congruence.
  - split; [done|]. by intros (? & ? & _).
  - split; [done|]. by intros (? & ? & _).
Qed.

(** A document signed by its author passes the signature check. *)
Lemma signed_passes keypair d d' :
  signsVerify keypair ->
  prop d "author" = JStr (address keypair) ->
  signDocument keypair d = Ok d' ->
  _checkAuthorSignatureIsValid d' = Valid.
Proof.
  intros Hprovider Hauthor Hsigned.
  pose proof (signDocument_keeps_hash _ _ _ Hsigned) as Hhash.
  apply signDocument_Ok in Hsigned as (h & sg & Hh & Hsg & ->).
  apply _checkAuthorSignatureIsValid_Valid. exists h.
  split; [by rewrite Hhash|].
  rewrite !prop_insert. simpl. rewrite Hauthor. simpl. by apply Hprovider.
Qed.

(** X1: [signDocument] changes nothing but the signature, and when the
    provider's [verify] accepts what its [sign] makes for the keypair
    and the document's author is the keypair's address, the document
    it returns passes the signature check. *)
Theorem signDocument_verifies keypair d d' :
  signsVerify keypair ->
  prop d "author" = JStr (address keypair) ->
  signDocument keypair d = Ok d' ->
  delete "signature" d' = delete "signature" d /\
  _checkAuthorSignatureIsValid d' = Valid.
Proof.
  intros Hprovider Hauthor Hsigned.
  split; [|by eapply signed_passes].
  apply signDocument_Ok in Hsigned as (h & sg & _ & _ & ->).
  apply delete_insert_eq.
Qed.

(** X2: the document that [generateDocument] returns has exactly the
    fields of the schema: the format, the keypair's address as author,
    the content and path of the input, the hash of the content, the
    input's [deleteAfter] or [null], the timestamp and the share it was
    given; it passes the signature check and the content hash check. *)
Theorem generateDocument_signed input keypair share timestamp content d :
  signsVerify keypair ->
  prop input "content" = JStr content ->
  generateDocument input keypair share timestamp = Ok d ->
  dom d = validKeys /\
  prop d "format" = JStr "es.4" /\
  prop d "author" = JStr (address keypair) /\
  prop d "content" = JStr content /\
  prop d "contentHash" = JStr (sha256base32 content) /\
  prop d "deleteAfter" = orNull (prop input "deleteAfter") /\
  prop d "path" = prop input "path" /\
  prop d "timestamp" = JNum timestamp /\
  prop d "workspace" = JStr share /\
  _checkAuthorSignatureIsValid d = Valid /\
  _checkContentMatchesHash (stringOf (prop d "content"))
    (stringOf (prop d "contentHash")) = Valid.
Proof.
  intros Hprovider Hcontent. unfold generateDocument. intros Hsigned.
  pose proof Hsigned as Hchecked.
  apply signed_passes in Hchecked;
    [|exact Hprovider|rewrite !prop_insert; reflexivity].
  apply signDocument_Ok in Hsigned as (h & sg & _ & _ & ->).
  rewrite !prop_insert. simpl. rewrite Hcontent. simpl.
  split.
  { rewrite !dom_insert_L, dom_empty_L. unfold validKeys. simpl.
    apply set_eq. intros key.
    rewrite !elem_of_union, !elem_of_singleton, elem_of_empty. tauto. }
  repeat (split; [reflexivity|]).
  split; [rewrite Hcontent in Hchecked; exact Hchecked|].
  unfold _checkContentMatchesHash. by rewrite bool_decide_eq_false_2 by auto.
Qed.

End Signing.

Lemma signDocument_aboutDoc :
  @FormatEs4.signDocument constantCrypto permissiveValidators suzy aboutDoc =
    Ok (<["signature" := JStr constantSignature]> aboutDoc).
Proof.
  apply signDocument_Ok. exists constantHash, constantSignature.
  split; [by vm_compute|done].
Qed.

Lemma signDocument_verifies_witness :
  delete "signature" (<["signature" := JStr constantSignature]> aboutDoc) =
    delete "signature" aboutDoc /\
  @FormatEs4._checkAuthorSignatureIsValid constantCrypto permissiveValidators
    (<["signature" := JStr constantSignature]> aboutDoc) = Valid.
Proof.
  apply (@signDocument_verifies constantCrypto permissiveValidators suzy).
  - intros msg sig _. reflexivity.
  - reflexivity.
  - apply signDocument_aboutDoc.
Defined.

Lemma generateDocument_aboutInput :
  exists d,
    @FormatEs4.generateDocument constantCrypto permissiveValidators
      aboutInput suzy "+gardening.bhyux4opeug2ieq" 1700000000000000 = Ok d.
Proof.
  eexists. unfold FormatEs4.generateDocument.
  apply signDocument_Ok. exists constantHash, constantSignature.
  split; [by vm_compute|]. split; reflexivity.
Qed.

Lemma generateDocument_signed_witness :
  exists d,
    @FormatEs4.generateDocument constantCrypto permissiveValidators
      aboutInput suzy "+gardening.bhyux4opeug2ieq" 1700000000000000 = Ok d /\
    prop d "contentHash" = JStr (@sha256base32 constantCrypto "Suzy") /\
    @FormatEs4._checkAuthorSignatureIsValid constantCrypto
      permissiveValidators d = Valid.
Proof.
  destruct generateDocument_aboutInput as [d Hd]. exists d.
  split; [exact Hd|].
  destruct (@generateDocument_signed constantCrypto permissiveValidators
              aboutInput suzy "+gardening.bhyux4opeug2ieq" 1700000000000000
              "Suzy" d)
    as (_ & _ & _ & _ & Hhash & _ & _ & _ & _ & Hsig & _).
  - intros msg sig _. reflexivity.
  - reflexivity.
  - exact Hd.
  - split; [exact Hhash|exact Hsig].
Defined.

(** ** Wiping *)

Section WipingMore.
Context `{Crypto} `{CoreValidators}.
Import Checkers FormatEs4.

(** X3: wiping is idempotent: [wipeDocument] returns a document that it
    returns unchanged when it is given it again. *)
Theorem wipeDocument_idempotent keypair d d' :
  wipeDocument keypair d = Ok d' -> wipeDocument keypair d' = Ok d'.
Proof.
  intros Hwiped. apply wipeDocument_Ok. left. split; [|done].
  apply wipeDocument_Ok in Hwiped as [[Hempty ->]|(_ & _ & Hsigned)];
    [done|].
  apply signDocument_Ok in Hsigned as (h & sg & _ & _ & ->).
  unfold emptied. by rewrite !prop_insert.
Qed.

(** X4: the document that [wipeDocument] returns for a document with
    content has no field outside the schema (the extra fields of the
    original are gone), its content is empty, its [contentHash] is the
    hash of the empty string, so that it passes the content hash check,
    and every field of the schema other than [content], [contentHash]
    and [signature] is as in the original. *)
Theorem wipeDocument_erases keypair d d' :
  lengthIsZero (prop d "content") = Ok false ->
  wipeDocument keypair d = Ok d' ->
  dom d' ⊆ validKeys /\
  prop d' "content" = JStr "" /\
  prop d' "contentHash" = JStr (sha256base32 "") /\
  _checkContentMatchesHash (stringOf (prop d' "content"))
    (stringOf (prop d' "contentHash")) = Valid /\
  (forall key, key ∈ validKeys -> key <> "content" ->
     key <> "contentHash" -> key <> "signature" ->
     d' !! key = d !! key).
Proof.
  intros Hfull Hwiped.
  apply wipeDocument_Ok in Hwiped as [[Hempty ->]|(_ & _ & Hsigned)].
  { rewrite Hempty in Hfull. by vm_compute in Hfull. }
  apply signDocument_Ok in Hsigned as (h & sg & _ & _ & ->).
  unfold emptied. rewrite !prop_insert. simpl.
  split; [|split; [done|split; [done|split]]].
  - repeat (apply dom_insert_within;
              [apply validKeys_elem; by_computation|]).
    apply dom_schemaFields.
  - unfold _checkContentMatchesHash.
    by rewrite bool_decide_eq_false_2 by auto.
  - intros key Hkey ? ? ?. rewrite !lookup_insert_ne by done.
    unfold schemaFields.
    destruct (d !! key) as [v|] eqn:Hd.
    + by apply map_lookup_filter_Some_2.
    + apply map_lookup_filter_None_2. by left.
Qed.

(** X5: [wipeDocument] throws a [TypeError] for a document without
    content, and for a document with content and with a field outside
    the schema whose name does not begin with an underscore it returns
    the [ValidationError] of [removeExtraFields]. *)
Theorem wipeDocument_fails keypair d :
  (prop d "content" = JUndefined \/ prop d "content" = JNull ->
   wipeDocument keypair d = Throw TypeError) /\
  (lengthIsZero (prop d "content") = Ok false ->
   ~ extrasUnderscored d ->
   wipeDocument keypair d =
     invalid
       "extra document fields must have names starting with an underscore").
Proof.
  split.
  - unfold wipeDocument. by intros [-> | ->].
  - intros Hfull Hextras. unfold wipeDocument. rewrite Hfull.
    cbn [mbind Outcome_bind]. rewrite removeExtraFields_Obj.
    unfold splitFields. by rewrite decide_False.
Qed.

End WipingMore.

Lemma wipeDocument_aboutDoc :
  @FormatEs4.wipeDocument constantCrypto permissiveValidators suzy aboutDoc =
    Ok wipedAboutDoc.
Proof.
  apply wipeDocument_Ok. right. split; [by vm_compute|].
  split; [by_computation|].
  apply signDocument_Ok. exists constantHash, constantSignature.
  split; [|done].
  rewrite (@hashDocument_without_signature constantCrypto).
  unfold emptied. rewrite delete_insert_eq. by vm_compute.
Qed.

Lemma wipeDocument_idempotent_witness :
  @FormatEs4.wipeDocument constantCrypto permissiveValidators suzy
    wipedAboutDoc = Ok wipedAboutDoc.
Proof.
  apply (@wipeDocument_idempotent constantCrypto permissiveValidators
           suzy aboutDoc).
  apply wipeDocument_aboutDoc.
Defined.

Lemma wipeDocument_erases_witness :
  dom wipedAboutDoc ⊆ @FormatEs4.validKeys permissiveValidators /\
  prop wipedAboutDoc "content" = JStr "".
Proof.
  destruct (@wipeDocument_erases constantCrypto permissiveValidators
              suzy aboutDoc wipedAboutDoc) as (Hdom & Hcontent & _).
  - by vm_compute.
  - apply wipeDocument_aboutDoc.
  - split; [exact Hdom|exact Hcontent].
Defined.

Lemma wipeDocument_fails_witness :
  @FormatEs4.wipeDocument constantCrypto permissiveValidators suzy
    colouredDoc =
  invalid "extra document fields must have names starting with an underscore".
Proof.
  apply (@wipeDocument_fails constantCrypto permissiveValidators).
  - by vm_compute.
  - by_computation.
Defined.

(** ** Validity over time, and what a valid document is *)

Section ValidityMore.
Context `{Crypto} `{CoreValidators}.
Import Checkers FormatEs4.

Lemma _checkTimestampIsOk_iff timestamp deleteAfter now :
  _checkTimestampIsOk timestamp deleteAfter now = Valid <->
  timestamp <= now + FUTURE_CUTOFF_MICROSECONDS /\
  forall expiry, deleteAfter = Some expiry ->
    now <= expiry /\ timestamp < expiry.
Proof.
  unfold _checkTimestampIsOk.
  case_bool_decide as Hfuture; [split; [done|lia]|].
  destruct deleteAfter as [expiry|].
  - case_bool_decide as Hexpired.
    { split; [done|]. intros [_ Hall].
      destruct (Hall expiry eq_refl). lia. }
    case_bool_decide as Hborn.
    { split; [done|]. intros [_ Hall].
      destruct (Hall expiry eq_refl). lia. }
    split; [|done]. intros _. split; [lia|]. intros ? [= <-]. lia.
  - split; [|done]. intros _. split; [lia|]. by intros.
Qed.

(** What each of the eight checks has established for a valid
    document. *)
Lemma checkDocumentIsValid_inv Date_now doc now :
  checkDocumentIsValid Date_now doc now = Valid ->
  _checkBasicDocumentValidity doc = Valid /\
  _checkTimestampIsOk (numberOf (prop doc "timestamp"))
    (nullableNumberOf (prop doc "deleteAfter"))
    (effectiveNow Date_now now) = Valid /\
  _checkAuthorCanWriteToPath (stringOf (prop doc "author"))
    (stringOf (prop doc "path")) = Valid /\
  _checkPathIsValid (stringOf (prop doc "path")) (prop doc "deleteAfter")
    = Valid /\
  checkAuthorIsValid (stringOf (prop doc "author")) = Valid /\
  checkShareIsValid (stringOf (prop doc "workspace")) = Valid /\
  _checkAuthorSignatureIsValid doc = Valid /\
  _checkContentMatchesHash (stringOf (prop doc "content"))
    (stringOf (prop doc "contentHash")) = Valid.
Proof.
  rewrite checkDocumentIsValid_Valid. unfold checksInOrder. intros Hall.
  repeat (apply Forall_cons_1 in Hall as [? Hall]). by split_and!.
Qed.

(** X6: a valid document stays valid as time passes: when it is valid
    at [now] it is valid at every later moment, up to its [deleteAfter]
    if it has one. *)
Theorem checkDocumentIsValid_later Date_now doc now later :
  checkDocumentIsValid Date_now doc (Some now) = Valid ->
  now <= later ->
  (forall expiry, prop doc "deleteAfter" = JNum expiry -> later <= expiry) ->
  checkDocumentIsValid Date_now doc (Some later) = Valid.
Proof.
  rewrite !checkDocumentIsValid_Valid. unfold checksInOrder, effectiveNow.
  simpl. intros Hall Hlater Hexpiry.
  apply Forall_cons_1 in Hall as [Hbasic Hall].
  apply Forall_cons_1 in Hall as [Htime Hall].
  apply Forall_cons_2; [done|]. apply Forall_cons_2; [|done].
  apply _checkTimestampIsOk_iff in Htime as [Hfuture Hephemeral].
  apply _checkTimestampIsOk_iff. split; [lia|].
  intros expiry Hda. destruct (Hephemeral expiry Hda) as [_ Hborn].
  split; [|done]. apply Hexpiry.
  destruct (prop doc "deleteAfter"); try done. simpl in Hda. congruence.
Qed.

(** X7: a document is never valid after its [deleteAfter]: checked at a
    moment later than that, the result is a [ValidationError]. *)
Theorem checkDocumentIsValid_expired Date_now doc now expiry :
  prop doc "deleteAfter" = JNum expiry ->
  expiry < effectiveNow Date_now now ->
  exists e, checkDocumentIsValid Date_now doc now = Err e.
Proof.
  intros Hda Hexpired. rewrite checkDocumentIsValid_firstFailure.
  unfold checksInOrder. cbn [firstFailure].
  destruct (_checkBasicDocumentValidity_total doc) as [Hb|[e Hb]];
    rewrite Hb; [|by exists e].
  destruct (_checkTimestampIsOk_total (numberOf (prop doc "timestamp"))
    (nullableNumberOf (prop doc "deleteAfter"))
    (effectiveNow Date_now now)) as [Ht|[e Ht]]; [|rewrite Ht; by exists e].
  apply _checkTimestampIsOk_iff in Ht as [_ Hephemeral].
  rewrite Hda in Hephemeral. destruct (Hephemeral expiry eq_refl). lia.
Qed.

(** X8: a valid document has the shape of the schema, its hash is
    defined and the provider verifies its signature over that hash for
    its author, its [contentHash] is the hash of its content, and if it
    has a [deleteAfter], that is later than its timestamp and not before
    the moment of the check. *)
Theorem checkDocumentIsValid_sound Date_now doc now :
  checkDocumentIsValid Date_now doc now = Valid ->
  Es4Shape doc /\
  (exists h, hashDocument doc = Ok h /\
     verify (stringOf (prop doc "author"))
            (stringOf (prop doc "signature")) h = Ok true) /\
  sha256base32 (stringOf (prop doc "content")) =
    stringOf (prop doc "contentHash") /\
  (forall expiry, prop doc "deleteAfter" = JNum expiry ->
     effectiveNow Date_now now <= expiry /\
     numberOf (prop doc "timestamp") < expiry).
Proof.
  intros (Hbasic & Htime & _ & _ & _ & _ & Hsig & Hcontent)
    %checkDocumentIsValid_inv.
  split; [by apply basic_validity_shape|].
  split; [by apply _checkAuthorSignatureIsValid_Valid|].
  split.
  - unfold _checkContentMatchesHash in Hcontent.
    case_bool_decide as Hne; [done|].
    destruct (decide (sha256base32 (stringOf (prop doc "content")) =
                      stringOf (prop doc "contentHash"))); [done|].
    by destruct Hne.
  - intros expiry Hda.
    apply _checkTimestampIsOk_iff in Htime as [_ Hephemeral].
    apply Hephemeral. by rewrite Hda.
Qed.

(** X9: the signature check never throws, because it catches what
    the provider's [verify] throws: an exception of [verify] becomes the
    [ValidationError] of the [catch], a [verify] that returns [false]
    gives "signature is invalid", and a [ValidationError] of
    [hashDocument] is returned as it is. *)
Theorem signature_check_catches_verify doc :
  (forall x, _checkAuthorSignatureIsValid doc <> Throw x) /\
  (forall h x,
      hashDocument doc = Ok h ->
      verify (stringOf (prop doc "author"))
        (stringOf (prop doc "signature")) h = Throw x ->
      _checkAuthorSignatureIsValid doc =
        invalid "signature is invalid (unexpected exception)") /\
  (forall h,
      hashDocument doc = Ok h ->
      verify (stringOf (prop doc "author"))
        (stringOf (prop doc "signature")) h = Ok false ->
      _checkAuthorSignatureIsValid doc = invalid "signature is invalid") /\
  (forall e,
      hashDocument doc = Err e -> _checkAuthorSignatureIsValid doc = Err e).
Proof.
  unfold _checkAuthorSignatureIsValid. split_and!.
  - intros x.
    destruct (hashDocument doc) as [h| |] eqn:Hh;
      cbn [mbind Outcome_bind tryCatch]; [|done..].
    destruct (verify _ _ h) as [[]| |]; by cbn.
  - intros h x -> Hverify. cbn [mbind Outcome_bind]. by rewrite Hverify.
  - intros h -> Hverify. cbn [mbind Outcome_bind]. by rewrite Hverify.
  - by intros e ->.
Qed.

Lemma basic_validity_content doc content :
  _checkBasicDocumentValidity doc = Valid ->
  Z.of_nat (String.length content) <= MAX_CONTENT_LENGTH ->
  _checkBasicDocumentValidity (<["content" := JStr content]> doc) = Valid.
Proof.
  rewrite !basic_validity_iff. unfold ES4_CORE_SCHEMA.
  rewrite !checkObj_None. intros (Hundef & Hdom & Hfields) Hlen.
  split; [|split].
  - by apply map_Forall_insert_2.
  - apply dom_insert_within; [|done]. simpl.
    rewrite !elem_of_union, !elem_of_singleton. tauto.
  - repeat (apply Forall_cons_1 in Hfields as [? Hfields]).
    repeat apply Forall_cons_2; try apply Forall_nil_2; simpl in *;
      rewrite prop_insert; simpl; try done.
    cbv [checkString violates minLen maxLen len allowedChars].
    destruct (Z.ltb_spec MAX_CONTENT_LENGTH
                (Z.of_nat (String.length content))); [lia|done].
Qed.

(** The hash covers the content through [contentHash] only. *)
Lemma hashDocument_content doc content h :
  hashDocument doc = Ok h ->
  Z.of_nat (String.length content) <= MAX_CONTENT_LENGTH ->
  hashDocument (<["content" := JStr content]> doc) = Ok h.
Proof.
  unfold hashDocument. intros Hh Hlen.
  destruct (_checkBasicDocumentValidity_total
              (<["signature" := JStr fakeSignature]> doc)) as [Hb|[e Hb]];
    rewrite Hb in Hh; [|done].
  rewrite insert_insert_ne by done.
  rewrite (basic_validity_content _ _ Hb Hlen).
  by rewrite !prop_insert.
Qed.

(** X10: when the content of a valid document is replaced by a content
    with another hash, within the length that the schema allows, the
    signature check still passes (the signature covers the content
    through [contentHash] only) and it is the content hash check that
    rejects the document. *)
Theorem checkDocumentIsValid_content_tampered Date_now doc now content :
  checkDocumentIsValid Date_now doc now = Valid ->
  Z.of_nat (String.length content) <= MAX_CONTENT_LENGTH ->
  sha256base32 content <> sha256base32 (stringOf (prop doc "content")) ->
  _checkAuthorSignatureIsValid (<["content" := JStr content]> doc)
    = Valid /\
  checkDocumentIsValid Date_now (<["content" := JStr content]> doc) now =
    invalid "content does not match contentHash".
Proof.
  intros (Hbasic & Htime & Hwrite & Hpath & Hauthor & Hshare & Hsig & Hhash)
    %checkDocumentIsValid_inv Hlen Hother.
  apply _checkAuthorSignatureIsValid_Valid in Hsig as (h & Hh & Hverified).
  assert (Hmatches : sha256base32 (stringOf (prop doc "content")) =
                     stringOf (prop doc "contentHash")).
  { unfold _checkContentMatchesHash in Hhash.
    case_bool_decide as Hne; [done|].
    destruct (decide (sha256base32 (stringOf (prop doc "content")) =
                      stringOf (prop doc "contentHash"))); [done|].
    by destruct Hne. }
  assert (Hprop : forall key, key <> "content" ->
            prop (<["content" := JStr content]> doc) key = prop doc key).
  { intros key Hkey. rewrite prop_insert. by rewrite decide_False. }
  assert (Hsig : _checkAuthorSignatureIsValid
                   (<["content" := JStr content]> doc) = Valid).
  { apply _checkAuthorSignatureIsValid_Valid. exists h.
    split; [by apply hashDocument_content|].
    by rewrite (Hprop "author"), (Hprop "signature"). }
  split; [exact Hsig|].
  rewrite checkDocumentIsValid_firstFailure. unfold checksInOrder.
  rewrite (Hprop "timestamp"), (Hprop "deleteAfter"), (Hprop "author"),
    (Hprop "path"), (Hprop "workspace"), (Hprop "contentHash") by done.
  rewrite prop_insert. simpl.
  rewrite (basic_validity_content _ _ Hbasic Hlen).
  rewrite Htime, Hwrite, Hpath, Hauthor, Hshare. cbn [firstFailure].
  rewrite Hsig. unfold _checkContentMatchesHash.
  rewrite bool_decide_eq_true_2; [done|]. congruence.
Qed.

Lemma _checkPathIsValid_iff path deleteAfter :
  _checkPathIsValid path deleteAfter = Valid <->
  (exists rest, path = "/" +:+ rest) /\
  (forall rest, path <> rest +:+ "/") /\
  (forall rest, path <> "/@" +:+ rest) /\
  ~ contains path "//" /\
  (deleteAfter <> JUndefined ->
     (deleteAfter <> JNull <-> contains path "!")).
Proof.
  unfold _checkPathIsValid.
  rewrite <- startsWith_spec, not_contains_includes, contains_includes.
  assert (Hends : (forall rest, path <> rest +:+ "/") <->
                  endsWith path "/" = false).
  { rewrite <- not_true_iff_false, endsWith_spec. split.
    - intros Hno [rest ->]. by apply (Hno rest).
    - intros Hno rest ->. apply Hno. by exists rest. }
  assert (Hat : (forall rest, path <> "/@" +:+ rest) <->
                startsWith path "/@" = false).
  { rewrite <- not_true_iff_false, startsWith_spec. split.
    - intros Hno [rest ->]. by apply (Hno rest).
    - intros Hno rest ->. apply Hno. by exists rest. }
  rewrite Hends, Hat.
  destruct (startsWith path "/"); simpl; [|split; [done|by intros [? _]]].
  destruct (endsWith path "/");
    [split; [done|by intros (_ & ? & _)]|].
  destruct (startsWith path "/@");
    [split; [done|by intros (_ & _ & ? & _)]|].
  destruct (includes path "//");
    [split; [done|by intros (_ & _ & _ & ? & _)]|].
  destruct (decide (deleteAfter = JUndefined)) as [->|Hdef].
  { simpl. by repeat split. }
  rewrite (bool_decide_eq_true_2 _ Hdef).
  destruct (includes path "!"), (decide (deleteAfter = JNull)) as [Hn|Hn];
    simpl.
  - rewrite (bool_decide_eq_true_2 _ Hn). split; [done|].
    intros (_ & _ & _ & _ & Hrule). by destruct (proj2 (Hrule Hdef)).
  - rewrite (bool_decide_eq_false_2 _ Hn). by repeat split.
  - rewrite (bool_decide_eq_false_2 _ (fun Hd => Hd Hn)).
    repeat split; try done; intros Hd; by destruct (Hd Hn).
  - rewrite (bool_decide_eq_true_2 _ Hn). split; [done|].
    intros (_ & _ & _ & _ & Hrule). by discriminate (proj1 (Hrule Hdef) Hn).
Qed.

(** X11: the path of a valid document is a string of 2 to 512 of the
    path characters that begins with a slash, does not end with a
    slash, does not begin with [/@] and has no two slashes in a row. *)
Theorem checkDocumentIsValid_path Date_now doc now :
  checkDocumentIsValid Date_now doc now = Valid ->
  exists path, prop doc "path" = JStr path /\
    2 <= Z.of_nat (String.length path) <= 512 /\
    onlyHasChars path pathChars = true /\
    (exists rest, path = "/" +:+ rest) /\
    (forall rest, path <> rest +:+ "/") /\
    (forall rest, path <> "/@" +:+ rest) /\
    ~ contains path "//".
Proof.
  intros (Hbasic & _ & _ & Hpath & _)%checkDocumentIsValid_inv.
  apply basic_validity_iff in Hbasic. unfold ES4_CORE_SCHEMA in Hbasic.
  apply checkObj_None in Hbasic as (_ & _ & Hfields).
  do 5 apply Forall_cons_1 in Hfields as [_ Hfields].
  apply Forall_cons_1 in Hfields as [Hfield _]. simpl in Hfield.
  apply checkString_None_inv in Hfield
    as (path & Hprop & Hmin & Hmax & _ & Hchars).
  rewrite Hprop in Hpath. simpl in Hpath.
  apply _checkPathIsValid_iff in Hpath as (? & ? & ? & ? & _).
  exists path. split; [done|].
  split; [split; [by apply Hmin|by apply Hmax]|].
  split; [by apply Hchars|]. done.
Qed.

End ValidityMore.

Lemma checkDocumentIsValid_later_witness :
  @FormatEs4.checkDocumentIsValid constantCrypto permissiveValidators
    0 chatDoc (Some 1700000300000000) = Valid.
Proof.
  apply (@checkDocumentIsValid_later constantCrypto permissiveValidators
           0 chatDoc 1700000000000000).
  - by vm_compute.
  - lia.
  - intros expiry Hda. vm_compute in Hda. injection Hda as <-. lia.
Defined.

Lemma checkDocumentIsValid_expired_witness :
  exists e,
    @FormatEs4.checkDocumentIsValid constantCrypto permissiveValidators
      0 chatDoc (Some 1700000600000001) = Err e.
Proof.
  apply (@checkDocumentIsValid_expired constantCrypto permissiveValidators
           0 chatDoc (Some 1700000600000001) 1700000600000000).
  - reflexivity.
  - vm_compute. reflexivity.
Defined.

Lemma checkDocumentIsValid_sound_witness :
  @sha256base32 constantCrypto (stringOf (prop aboutDoc "content")) =
    stringOf (prop aboutDoc "contentHash").
Proof.
  apply (@checkDocumentIsValid_sound constantCrypto permissiveValidators
           0 aboutDoc aboutNow).
  by vm_compute.
Defined.

Lemma signature_check_catches_verify_witness :
  @FormatEs4._checkAuthorSignatureIsValid throwingCrypto permissiveValidators
    aboutDoc = invalid "signature is invalid (unexpected exception)".
Proof.
  apply (proj1 (proj2 (@signature_check_catches_verify throwingCrypto
            permissiveValidators aboutDoc)) constantHash TypeError).
  - by vm_compute.
  - reflexivity.
Defined.

Lemma checkDocumentIsValid_content_tampered_witness :
  @FormatEs4.checkDocumentIsValid tellingCrypto permissiveValidators
    0 (<["content" := JStr "Suzie"]> aboutDoc) aboutNow =
  invalid "content does not match contentHash".
Proof.
  apply (@checkDocumentIsValid_content_tampered tellingCrypto
           permissiveValidators 0 aboutDoc aboutNow "Suzie").
  - by vm_compute.
  - vm_compute. discriminate.
  - vm_compute. discriminate.
Defined.

Lemma checkDocumentIsValid_path_witness :
  exists path, prop aboutDoc "path" = JStr path /\
    2 <= Z.of_nat (String.length path) <= 512.
Proof.
  destruct (@checkDocumentIsValid_path constantCrypto permissiveValidators
              0 aboutDoc aboutNow) as (path & Hpath & Hlen & _).
  - by vm_compute.
  - exists path. split; [exact Hpath|exact Hlen].
Defined.

(** ** Extra fields *)

Section Cleaning.
Context `{Crypto} `{CoreValidators}.
Import Checkers FormatEs4.

(** X12: the two objects that [removeExtraFields] returns have no field
    in common and together they are the input; every field of [extras]
    has a name that begins with an underscore; and what it returns as
    [doc] it returns unchanged, with no extras, when it is given it
    again. *)
Theorem removeExtraFields_partition x r :
  removeExtraFields (Obj x) = Ok r ->
  doc r ∪ extras r = x /\
  dom (doc r) ## dom (extras r) /\
  map_Forall (fun key _ => startsWith key "_" = true) (extras r) /\
  removeExtraFields (Obj (doc r)) = Ok {| doc := doc r; extras := ∅ |}.
Proof.
  rewrite !removeExtraFields_Obj. unfold splitFields.
  destruct (decide (extrasUnderscored x)) as [Hx|]; [|done].
  intros [= <-]. cbn [doc extras]. split; [|split; [|split]].
  - apply map_filter_union_complement.
  - apply map_disjoint_dom, map_disjoint_filter_complement.
  - intros key val [Hval Hkey]%map_lookup_filter_Some. simpl in Hkey.
    by destruct (Hx key val Hval).
  - rewrite decide_True.
    + f_equal. f_equal.
      * apply map_filter_id. intros key val Hval.
        by apply map_lookup_filter_Some in Hval as [_ ?].
      * apply map_empty_filter_2. intros key val Hval Hout.
        apply map_lookup_filter_Some in Hval as [_ ?]. simpl in *. auto.
    + intros key val Hval. left.
      by apply map_lookup_filter_Some in Hval as [_ ?].
Qed.

Lemma basic_validity_extra (d : JsObject) key :
  key ∉ validKeys -> is_Some (d !! key) ->
  exists e, _checkBasicDocumentValidity d = Err e.
Proof.
  intros Hkey Hd.
  destruct (_checkBasicDocumentValidity_total d) as [Hb|]; [|done].
  apply basic_validity_shape in Hb as [Hdom].
  destruct Hkey. rewrite <- Hdom. by apply elem_of_dom.
Qed.

(** X13: the document that the driver's [upsert] returns for a document
    that passes the schema check is not itself valid, because of its
    [_localIndex], and [removeExtraFields] gives back from it the
    document that was upserted, with the [_localIndex] as the only
    extra. *)
Theorem upsert_then_removeExtraFields Date_now now d driver :
  DocDriverSqliteFfi._isClosed driver = false ->
  _checkBasicDocumentValidity d = Valid ->
  exists stored,
    (DocDriverSqliteFfi.upsert d None driver).1 = Ok stored /\
    (exists e, checkDocumentIsValid Date_now stored now = Err e) /\
    removeExtraFields (Obj stored) =
      Ok {| doc := d;
            extras := {[ "_localIndex" :=
              JNum (DocDriverSqliteFfi.plusOne
                      (DocDriverSqliteFfi._maxLocalIndex driver)) ]} |}.
Proof.
  intros Hopen Hbasic.
  unfold DocDriverSqliteFfi.upsert, DocDriverSqliteFfi.upsertSync.
  rewrite Hopen. eexists. split; [reflexivity|].
  unfold DocDriverSqliteFfi.withLocalIndex. simpl.
  assert (Hfresh : "_localIndex" ∉ validKeys).
  { rewrite validKeys_elem. by_computation. }
  apply basic_validity_shape in Hbasic as [Hdom].
  split.
  - rewrite checkDocumentIsValid_firstFailure. unfold checksInOrder.
    cbn [firstFailure].
    destruct (basic_validity_extra
      (<["_localIndex" :=
           JNum (DocDriverSqliteFfi.plusOne
                   (DocDriverSqliteFfi._maxLocalIndex driver))]> d)
      "_localIndex" Hfresh) as [e ->]; [|by exists e].
    rewrite lookup_insert_eq. by eexists.
  - rewrite removeExtraFields_Obj. unfold splitFields.
    assert (Hd : forall key val, d !! key = Some val -> key ∈ validKeys).
    { intros key val Hval. rewrite <- Hdom. apply elem_of_dom. by eexists. }
    assert (Hnone : d !! "_localIndex" = None).
    { apply not_elem_of_dom. by rewrite Hdom. }
    rewrite decide_True.
    + f_equal. unfold schemaFields, extraFields. f_equal.
      * rewrite map_filter_insert_False by done.
        rewrite delete_id by done.
        apply map_filter_id. intros key val Hval. simpl. eauto.
      * rewrite map_filter_insert_True by done.
        rewrite (map_empty_filter_2 _ d); [apply insert_empty|].
        intros key val Hval Hout. simpl in Hout. apply Hout. eauto.
    + apply map_Forall_insert_2; [by right|].
      intros key val Hval. left. eauto.
Qed.

End Cleaning.

Lemma removeExtraFields_indexedDoc :
  @FormatEs4.removeExtraFields permissiveValidators (Obj indexedDoc) =
    Ok {| FormatEs4.doc := @schemaFields permissiveValidators indexedDoc;
          FormatEs4.extras := @extraFields permissiveValidators indexedDoc |}.
Proof.
  rewrite removeExtraFields_Obj. unfold splitFields.
  rewrite decide_True; [done|]. by_computation.
Qed.

Lemma removeExtraFields_partition_witness :
  @schemaFields permissiveValidators indexedDoc ∪
    @extraFields permissiveValidators indexedDoc = indexedDoc.
Proof.
  apply (@removeExtraFields_partition permissiveValidators indexedDoc
           {| FormatEs4.doc := @schemaFields permissiveValidators indexedDoc;
              FormatEs4.extras :=
                @extraFields permissiveValidators indexedDoc |}).
  apply removeExtraFields_indexedDoc.
Defined.

Lemma upsert_then_removeExtraFields_witness :
  exists stored,
    (DocDriverSqliteFfi.upsert aboutDoc None memoryDriver).1 = Ok stored /\
    (exists e,
       @FormatEs4.checkDocumentIsValid constantCrypto permissiveValidators
         0 stored aboutNow = Err e) /\
    @FormatEs4.removeExtraFields permissiveValidators (Obj stored) =
      Ok {| FormatEs4.doc := aboutDoc;
            FormatEs4.extras :=
              {[ "_localIndex" :=
                 JNum (DocDriverSqliteFfi.plusOne
                         (DocDriverSqliteFfi._maxLocalIndex memoryDriver))
              ]} |}.
Proof.
  apply (@upsert_then_removeExtraFields constantCrypto permissiveValidators
           0 aboutNow aboutDoc memoryDriver).
  - reflexivity.
  - by vm_compute.
Defined.

(** ** The text that is hashed *)

Section HashInput.
Context `{Crypto} `{CoreValidators}.
Import Checkers FormatEs4.

Lemma hashDocument_hashInput doc h :
  hashDocument doc = Ok h ->
  _checkBasicDocumentValidity (<["signature" := JStr fakeSignature]> doc)
    = Valid /\
  h = sha256base32 (hashInput doc).
Proof.
  unfold hashDocument, hashInput.
  destruct (_checkBasicDocumentValidity _) as [[]| |]; [|done..].
  cbn [mbind Outcome_bind]. by intros [= <-].
Qed.

Lemma hashed_fields doc :
  _checkBasicDocumentValidity (<["signature" := JStr fakeSignature]> doc)
    = Valid ->
  exists a ch p w ts,
    (prop doc "author" = JStr a /\ onlyHasChars a authorAddressChars = true) /\
    (prop doc "contentHash" = JStr ch /\ onlyHasChars ch b32chars = true) /\
    prop doc "format" = JStr "es.4" /\
    (prop doc "path" = JStr p /\ onlyHasChars p pathChars = true) /\
    prop doc "timestamp" = JNum ts /\
    (prop doc "workspace" = JStr w /\
     onlyHasChars w workspaceAddressChars = true) /\
    (prop doc "deleteAfter" = JNull \/
     exists n, prop doc "deleteAfter" = JNum n).
Proof.
  rewrite basic_validity_iff. unfold ES4_CORE_SCHEMA.
  rewrite checkObj_None. intros (_ & _ & Hfields).
  repeat (apply Forall_cons_1 in Hfields as [? Hfields]). simpl in *.
  repeat match goal with
  | H : context [prop (<[_ := _]> _) _] |- _ =>
      rewrite prop_insert in H; simpl in H
  end.
  repeat match goal with
  | H : checkString _ _ = None |- _ =>
      apply checkString_None_inv in H as (? & ? & _ & _ & _ & ?)
  | H : checkLiteral _ _ = None |- _ => apply checkLiteral_None in H
  | H : checkInt _ _ = None |- _ =>
      apply checkInt_None in H as [[? ?]|(? & ? & ?)]
  end; try discriminate.
  all: simpl in *.
  all: do 5 eexists; repeat split; eauto.
Qed.

(** X14: the hash of a document is the provider's hash of [hashInput],
    and when the alphabets of author addresses, paths and share
    addresses have no newline, the text determines the hashed fields:
    two documents that can be hashed and have the same [hashInput] have
    the same author, [contentHash], [deleteAfter], format, path,
    timestamp and workspace. *)
Theorem hashInput_injective d1 d2 h1 h2 :
  lacksChar "010" authorAddressChars ->
  lacksChar "010" pathChars ->
  lacksChar "010" workspaceAddressChars ->
  hashDocument d1 = Ok h1 -> hashDocument d2 = Ok h2 ->
  h1 = sha256base32 (hashInput d1) /\ h2 = sha256base32 (hashInput d2) /\
  (hashInput d1 = hashInput d2 ->
   Forall (fun key => prop d1 key = prop d2 key) hashedFields).
Proof.
  intros Hauthor Hpath Hshare
    [Hb1 ->]%hashDocument_hashInput [Hb2 ->]%hashDocument_hashInput.
  split; [done|]. split; [done|].
  assert (Hb32 : lacksChar "010" b32chars) by by_computation.
  destruct (hashed_fields _ Hb1) as (a1 & ch1 & p1 & w1 & ts1 &
    [Ha1 Hca1] & [Hch1 Hcch1] & Hf1 & [Hp1 Hcp1] & Ht1 & [Hw1 Hcw1] & Hda1).
  destruct (hashed_fields _ Hb2) as (a2 & ch2 & p2 & w2 & ts2 &
    [Ha2 Hca2] & [Hch2 Hcch2] & Hf2 & [Hp2 Hcp2] & Ht2 & [Hw2 Hcw2] & Hda2).
  unfold hashInput.
  rewrite Ha1, Ha2, Hch1, Hch2, Hf1, Hf2, Hp1, Hp2, Ht1, Ht2, Hw1, Hw2.
  cbn [toString].
  intros Heq.
  apply field_inj in Heq as [-> Heq];
    [|by apply (lacksChar_onlyHasChars _ _ authorAddressChars)..].
  apply field_inj in Heq as [-> Heq];
    [|by apply (lacksChar_onlyHasChars _ _ b32chars)..].
  assert (Hrest : prop d1 "deleteAfter" = prop d2 "deleteAfter" /\
    "format" +:+ tab +:+ "es.4" +:+ nl +:+
    "path" +:+ tab +:+ p1 +:+ nl +:+
    "timestamp" +:+ tab +:+ pretty ts1 +:+ nl +:+
    "workspace" +:+ tab +:+ w1 +:+ nl =
    "format" +:+ tab +:+ "es.4" +:+ nl +:+
    "path" +:+ tab +:+ p2 +:+ nl +:+
    "timestamp" +:+ tab +:+ pretty ts2 +:+ nl +:+
    "workspace" +:+ tab +:+ w2 +:+ nl).
  { destruct Hda1 as [Hda1|[n1 Hda1]], Hda2 as [Hda2|[n2 Hda2]];
      rewrite Hda1, Hda2 in Heq |- *; simpl in Heq.
    - done.
    - discriminate Heq.
    - discriminate Heq.
    - rewrite <- !String_app_assoc in Heq.
      apply field_inj in Heq as [Hn Heq]; [|apply lacksChar_nl_pretty..].
      apply (inj pretty) in Hn. by subst. }
  destruct Hrest as [Hda Hrest].
  apply field_inj in Hrest as [_ Hrest]; [|by_computation..].
  apply field_inj in Hrest as [-> Hrest];
    [|by apply (lacksChar_onlyHasChars _ _ pathChars)..].
  apply field_inj in Hrest as [Hts Hrest]; [|apply lacksChar_nl_pretty..].
  apply (inj pretty) in Hts. subst ts2.
  assert (Hw : w1 = w2).
  { rewrite <- (String_app_nil_r nl) in Hrest.
    apply field_inj in Hrest as [-> _];
      [done|by apply (lacksChar_onlyHasChars _ _ workspaceAddressChars)..]. }
  subst w2. unfold hashedFields.
  repeat apply Forall_cons_2; try apply Forall_nil_2; congruence.
Qed.

End HashInput.

Lemma hashInput_injective_witness :
  constantHash = @sha256base32 constantCrypto (hashInput aboutDoc) /\
  constantHash =
    @sha256base32 constantCrypto
      (hashInput (<["signature" := JStr "?"]> aboutDoc)) /\
  (hashInput aboutDoc = hashInput (<["signature" := JStr "?"]> aboutDoc) ->
   Forall
     (fun key =>
        prop aboutDoc key = prop (<["signature" := JStr "?"]> aboutDoc) key)
     hashedFields).
Proof.
  apply (@hashInput_injective constantCrypto permissiveValidators).
  - by_computation.
  - by_computation.
  - by_computation.
  - by vm_compute.
  - rewrite (@hashDocument_without_signature constantCrypto).
    rewrite delete_insert_eq.
    rewrite <- (@hashDocument_without_signature constantCrypto).
    by vm_compute.
Defined.

(** ** The config table, the local indexes and the rows of the driver *)

Section DriverMore.
Context `{DocDriverSqliteFfi.QueryEngine}.
Import DocDriverSqliteFfi.

(** X15: on an open driver [getConfig] returns what [setConfig] last
    stored under the key and nothing after [deleteConfig]; setting or
    deleting a key leaves the content of every other key; and
    [deleteConfig] returns [true] exactly when the key had a content,
    so that deleting twice returns [false]. *)
Theorem config_roundtrip key content d :
  _isClosed d = false ->
  (getConfig key (setConfig key content d).2).1 = Ok (Some content) /\
  (forall other, other <> key ->
     (getConfig other (setConfig key content d).2).1 = (getConfig other d).1 /\
     (getConfig other (deleteConfig key d).2).1 = (getConfig other d).1) /\
  (getConfig key (deleteConfig key d).2).1 = Ok None /\
  ((deleteConfig key d).1 = Ok true <->
     exists old, (getConfig key d).1 = Ok (Some old)) /\
  (deleteConfig key (deleteConfig key d).2).1 = Ok false.
Proof.
  intros Hopen.
  unfold getConfig, setConfig, deleteConfig, _getConfigSync, withDb.
  rewrite Hopen. simpl. rewrite ?Hopen. simpl.
  rewrite lookup_insert_eq, lookup_delete_eq.
  split; [done|]. split; [|split; [done|split]].
  - intros other Hother.
    by rewrite lookup_insert_ne, lookup_delete_ne by done.
  - destruct (config (_db d) !! key) as [old|].
    + rewrite bool_decide_eq_true_2 by eauto. split; [by exists old|done].
    + rewrite bool_decide_eq_false_2 by (by intros [? ?]).
      split; [done|]. by intros [? ?].
  - rewrite bool_decide_eq_false_2; [done|]. by intros [? ?].
Qed.

(** X16: on an open driver [listConfigKeys] returns the keys that have
    a content, each once, in sorted order. *)
Theorem listConfigKeys_sorted d :
  _isClosed d = false ->
  exists keys,
    (listConfigKeys d).1 = Ok keys /\
    Sorted String.le keys /\ NoDup keys /\
    forall key,
      key ∈ keys <-> exists content, (getConfig key d).1 = Ok (Some content).
Proof.
  intros Hopen. unfold listConfigKeys, getConfig, _listConfigKeysSync,
    _getConfigSync. rewrite Hopen. simpl.
  eexists. split; [reflexivity|]. split; [|split].
  - apply Sorted_merge_sort; apply _.
  - rewrite merge_sort_Permutation. apply NoDup_elements.
  - intros key. rewrite merge_sort_Permutation, elem_of_elements, elem_of_dom.
    split; intros [content Hc]; exists content; congruence.
Qed.

Lemma call_maxLocalIndex_exact c w :
  execReturns c ->
  exactIndex (_maxLocalIndex (driver w)) ->
  _maxLocalIndex (driver (call c w).2) =
  _maxLocalIndex (driver w) +
  Z.of_nat (length (assignedIndexes [(call c w).1])) /\
  assignedIndexes [(call c w).1] =
  seqZ (_maxLocalIndex (driver w) + 1)
       (Z.of_nat (length (assignedIndexes [(call c w).1]))).
Proof.
  destruct w as [d fs]. unfold assignedIndexes. simpl.
  intros Hreturns Hexact%plusOne_exact.
  destruct c; unfold call, reply, close, setConfig, getConfig,
    listConfigKeys, deleteConfig, getMaxLocalIndex, queryDocs,
    queryDocsSync, upsert, upsertSync, eraseExpiredDocs, withDb; simpl;
    destruct (_isClosed d); simpl; repeat case_match; simplify_eq/=;
    try (split; [lia|done]).
  unfold withLocalIndex. rewrite prop_insert, Hexact. simpl. done.
Qed.

Lemma assignedIndexes_cons r rs :
  assignedIndexes (r :: rs) = assignedIndexes [r] ++ assignedIndexes rs.
Proof. unfold assignedIndexes. simpl. by destruct r as [[]| |]. Qed.

Lemma run_consecutive calls w :
  Forall execReturns calls ->
  - 2 ^ 53 <= _maxLocalIndex (driver w) ->
  _maxLocalIndex (driver (run calls w).2) < 2 ^ 53 ->
  assignedIndexes (run calls w).1 =
    seqZ (_maxLocalIndex (driver w) + 1)
         (Z.of_nat (length (assignedIndexes (run calls w).1))) /\
  _maxLocalIndex (driver (run calls w).2) =
    _maxLocalIndex (driver w) +
    Z.of_nat (length (assignedIndexes (run calls w).1)).
Proof.
  revert w. induction calls as [|c calls IH]; intros w Hreturn Hlow Hhigh.
  { simpl. split; [done|lia]. }
  apply Forall_cons_1 in Hreturn as [Hc Hcalls].
  cbn [run] in *. pose proof (call_maxLocalIndex_exact c w Hc) as Hcall.
  destruct (call_maxLocalIndex c w) as [Hmono _].
  destruct (call c w) as [r w'] eqn:Hr.
  pose proof (run_maxLocalIndex calls w') as Hlater.
  specialize (IH w' Hcalls).
  destruct (run calls w') as [rs w'']. cbn [fst snd] in *.
  destruct Hcall as [Hmax Hone]; [unfold exactIndex; lia|].
  destruct IH as [Hrest Hlast]; [lia|done|].
  rewrite assignedIndexes_cons, length_app, Nat2Z.inj_add.
  split; [|lia].
  rewrite seqZ_app by lia. rewrite <- Hone. f_equal.
  rewrite Hrest at 1. f_equal. lia.
Qed.

(** X17: while [_maxLocalIndex] stays below 2^53, the local indexes
    that the successful upserts of a sequence of calls assign are
    consecutive, [_maxLocalIndex + 1], [_maxLocalIndex + 2], ...,
    whatever other calls and calls on the closed driver come between
    them, as long as no statement of an upsert throws; an upsert whose
    statement throws leaves a gap of one index. *)
Theorem run_assigns_consecutive :
  (forall calls w,
      Forall execReturns calls ->
      - 2 ^ 53 <= _maxLocalIndex (driver w) ->
      _maxLocalIndex (driver (run calls w).2) < 2 ^ 53 ->
      assignedIndexes (run calls w).1 =
        seqZ (_maxLocalIndex (driver w) + 1)
             (Z.of_nat (length (assignedIndexes (run calls w).1))) /\
      _maxLocalIndex (driver (run calls w).2) =
        _maxLocalIndex (driver w) +
        Z.of_nat (length (assignedIndexes (run calls w).1))) /\
  (forall doc x doc' w,
      _isClosed (driver w) = false ->
      - 2 ^ 53 <= _maxLocalIndex (driver w) ->
      _maxLocalIndex (driver w) + 1 < 2 ^ 53 ->
      assignedIndexes
        (run [CallUpsert doc (Some x); CallUpsert doc' None] w).1 =
        [_maxLocalIndex (driver w) + 2] /\
      _maxLocalIndex
        (driver (run [CallUpsert doc (Some x); CallUpsert doc' None] w).2) =
        _maxLocalIndex (driver w) + 2).
Proof.
  split; [apply run_consecutive|].
  intros doc x doc' [d fs] Hopen Hlow Hhigh. simpl in *.
  unfold assignedIndexes, call, reply, upsert, upsertSync, withDb,
    withLocalIndex. simpl. rewrite Hopen. simpl.
  rewrite prop_insert. simpl.
  rewrite (plusOne_exact (_maxLocalIndex d)) by (unfold exactIndex; lia).
  rewrite plusOne_exact by (unfold exactIndex; lia).
  split; [f_equal|]; lia.
Qed.

(** X18: what a call leaves alone: no call changes the share or the
    file name of the driver; files are only ever removed, and only by
    [close] with [erase]; only [close] changes [_isClosed]; only
    [upsert] changes [_maxLocalIndex]; only [upsert] and
    [eraseExpiredDocs] change the rows of the documents; only
    [setConfig] and [deleteConfig] change the config table. *)
Theorem call_frame c w :
  share (driver (call c w).2) = share (driver w) /\
  _filename (driver (call c w).2) = _filename (driver w) /\
  files (call c w).2 ⊆ files w /\
  (c <> CallClose true -> files (call c w).2 = files w) /\
  ((forall erase, c <> CallClose erase) ->
     _isClosed (driver (call c w).2) = _isClosed (driver w)) /\
  ((forall doc exec, c <> CallUpsert doc exec) ->
     _maxLocalIndex (driver (call c w).2) = _maxLocalIndex (driver w)) /\
  ((forall doc exec, c <> CallUpsert doc exec) ->
   (forall Date_now, c <> CallEraseExpiredDocs Date_now) ->
     docs (_db (driver (call c w).2)) = docs (_db (driver w))) /\
  ((forall key content, c <> CallSetConfig key content) ->
   (forall key, c <> CallDeleteConfig key) ->
     config (_db (driver (call c w).2)) = config (_db (driver w))).
Proof.
  destruct w as [d fs].
  destruct c as [[]| | | | | | | |]; unfold call, reply, close, setConfig,
    getConfig, listConfigKeys, deleteConfig, getMaxLocalIndex, queryDocs,
    queryDocsSync, upsert, upsertSync, eraseExpiredDocs, withDb; simpl;
    destruct (_isClosed d) eqn:Hclosed; simpl; repeat case_match; simpl;
    repeat split; try done; try congruence.
  all: try (intros Hc; exfalso; by eapply Hc).
  all: try (intros Hc ?; exfalso; by eapply Hc).
  all: try (intros ? Hc; exfalso; by eapply Hc).
  all: try (intros Hc; exfalso; by eapply (Hc _ None)).
  all: try (intros Hc ?; exfalso; by eapply (Hc _ None)).
  all: try (intros Hc; exfalso; by eapply (Hc _ (Some _))).
  all: try (intros Hc ?; exfalso; by eapply (Hc _ (Some _))).
  all: apply difference_subseteq_3.
Qed.

Lemma erased_and_kept (expired : SqlDocRow -> bool)
    (m : gmap string SqlDocRow) :
  (length (filter (fun row => expired row = true) (map_to_list m).*2) +
   size (filter (fun kv : string * SqlDocRow => expired kv.2 = false) m) =
   size m)%nat.
Proof.
  induction m as [|key row m Hfresh IH] using map_ind.
  { by rewrite map_to_list_empty, map_filter_empty, map_size_empty. }
  rewrite map_size_insert_None by done.
  rewrite (Permutation_length
    (filter_Permutation _ _ _
       (fmap_Permutation snd _ _ (map_to_list_insert m key row Hfresh)))).
  rewrite fmap_cons, filter_cons. simpl.
  destruct (expired row) eqn:Hrow.
  - rewrite decide_True by done.
    rewrite map_filter_insert_False by (simpl; congruence).
    rewrite delete_id by done.
    simpl. by rewrite IH.
  - rewrite decide_False by done.
    rewrite map_filter_insert_True by done.
    rewrite map_size_insert_None
      by (apply map_lookup_filter_None; by left).
    by rewrite Nat.add_succ_r, IH.
Qed.

(** X19: when the statement that selects the expired documents and
    the statement that deletes them take the same rows at that moment,
    [eraseExpiredDocs] on an open driver loses no row: the documents it
    returns and the rows it leaves are as many as the rows before, and
    erasing again at the same moment returns no document and changes
    nothing.  Whatever the two statements take, erasing does not change
    [_maxLocalIndex]. *)
Theorem eraseExpiredDocs_twice Date_now d :
  _isClosed d = false ->
  _maxLocalIndex (eraseExpiredDocs Date_now d).2 = _maxLocalIndex d /\
  ((forall row,
       selectExpired (Date_now * 1000) row =
       deleteExpired (Date_now * 1000) row) ->
   exists erased,
     (eraseExpiredDocs Date_now d).1 = Ok erased /\
     eraseExpiredDocs Date_now (eraseExpiredDocs Date_now d).2 =
       (Ok [], (eraseExpiredDocs Date_now d).2) /\
     (length erased + size (docs (_db (eraseExpiredDocs Date_now d).2)) =
      size (docs (_db d)))%nat).
Proof.
  intros Hopen. unfold eraseExpiredDocs, withDb. rewrite Hopen. simpl.
  rewrite ?Hopen. split; [done|]. intros Hsame.
  eexists. split; [reflexivity|].
  set (expired := fun row => selectExpired (Date_now * 1000) row = true).
  set (kept := fun kv : string * SqlDocRow =>
                 deleteExpired (Date_now * 1000) kv.2 = false).
  split.
  - f_equal.
    + f_equal.
      assert (Hnone :
        filter expired (map_to_list (filter kept (docs (_db d)))).*2 = []);
        [|by rewrite Hnone].
      apply filter_none, Forall_fmap, Forall_forall.
      intros [key row] [_ Hkept]%elem_of_map_to_list%map_lookup_filter_Some.
      unfold expired, kept in *. simpl in *. rewrite Hsame. congruence.
    + f_equal. f_equal. by rewrite map_filter_filter_l.
  - rewrite length_fmap.
    rewrite <- (erased_and_kept (deleteExpired (Date_now * 1000))
                  (docs (_db d))).
    f_equal. f_equal. apply list_filter_iff. intros row.
    unfold expired. by rewrite Hsame.
Qed.

End DriverMore.

Lemma config_roundtrip_witness :
  (DocDriverSqliteFfi.getConfig "share"
     (DocDriverSqliteFfi.setConfig "share" "+gardening.bhyux4opeug2ieq"
        memoryDriver).2).1 =
  Ok (Some "+gardening.bhyux4opeug2ieq").
Proof.
  apply (config_roundtrip "share" "+gardening.bhyux4opeug2ieq" memoryDriver).
  reflexivity.
Defined.

Lemma listConfigKeys_sorted_witness :
  exists keys,
    (DocDriverSqliteFfi.listConfigKeys gardenDriver).1 = Ok keys /\
    Sorted String.le keys /\ NoDup keys /\
    forall key,
      key ∈ keys <->
      exists content,
        (DocDriverSqliteFfi.getConfig key gardenDriver).1 = Ok (Some content).
Proof. apply (listConfigKeys_sorted gardenDriver). reflexivity. Defined.

(** The sweep of [twoDocsDriver] after [chatDoc] has expired erases
    that document and leaves [aboutDoc]. *)
Lemma eraseExpiredDocs_twice_witness :
  exists erased,
    (@DocDriverSqliteFfi.eraseExpiredDocs selectAll 1700000700000
       twoDocsDriver).1 = Ok erased /\
    @DocDriverSqliteFfi.eraseExpiredDocs selectAll 1700000700000
      (@DocDriverSqliteFfi.eraseExpiredDocs selectAll 1700000700000
         twoDocsDriver).2 =
      (Ok [],
       (@DocDriverSqliteFfi.eraseExpiredDocs selectAll 1700000700000
          twoDocsDriver).2) /\
    (length erased +
     size (DocDriverSqliteFfi.docs (DocDriverSqliteFfi._db
       (@DocDriverSqliteFfi.eraseExpiredDocs selectAll 1700000700000
          twoDocsDriver).2)) =
     size (DocDriverSqliteFfi.docs (DocDriverSqliteFfi._db twoDocsDriver)))%nat.
Proof.
  apply (proj2 (@eraseExpiredDocs_twice selectAll 1700000700000
                  twoDocsDriver eq_refl)).
  reflexivity.
Defined.

Lemma run_assigns_consecutive_witness :
  DocDriverSqliteFfi.assignedIndexes
    (@DocDriverSqliteFfi.run selectAll
       [ DocDriverSqliteFfi.CallUpsert aboutDoc None;
         DocDriverSqliteFfi.CallGetMaxLocalIndex;
         DocDriverSqliteFfi.CallUpsert chatDoc None;
         DocDriverSqliteFfi.CallClose false;
         DocDriverSqliteFfi.CallUpsert aboutDoc None ]
       {| DocDriverSqliteFfi.driver := memoryDriver;
          DocDriverSqliteFfi.files := ∅ |}).1 =
  seqZ 0 2.
Proof.
  apply (proj1 (@run_assigns_consecutive selectAll)
           [ DocDriverSqliteFfi.CallUpsert aboutDoc None;
             DocDriverSqliteFfi.CallGetMaxLocalIndex;
             DocDriverSqliteFfi.CallUpsert chatDoc None;
             DocDriverSqliteFfi.CallClose false;
             DocDriverSqliteFfi.CallUpsert aboutDoc None ]
           {| DocDriverSqliteFfi.driver := memoryDriver;
              DocDriverSqliteFfi.files := ∅ |}).
  - repeat constructor.
  - by vm_compute.
  - by vm_compute.
Defined.

Example eraseExpiredDocs_chatDoc :
  (@DocDriverSqliteFfi.eraseExpiredDocs selectAll 1700000700000
     twoDocsDriver).1 = Ok [chatDoc] /\
  size (DocDriverSqliteFfi.docs (DocDriverSqliteFfi._db twoDocsDriver)) =
    2%nat /\
  size (DocDriverSqliteFfi.docs (DocDriverSqliteFfi._db
    (@DocDriverSqliteFfi.eraseExpiredDocs selectAll 1700000700000
       twoDocsDriver).2)) = 1%nat.
Proof. split_and!; vm_compute; reflexivity. Qed.

Section Rows.
Context `{Crypto} `{CoreValidators}.
Import Checkers FormatEs4.

Lemma basic_validity_path_author doc :
  _checkBasicDocumentValidity doc = Valid ->
  exists path author,
    prop doc "path" = JStr path /\ prop doc "author" = JStr author /\
    onlyHasChars path pathChars = true.
Proof.
  rewrite basic_validity_iff. unfold ES4_CORE_SCHEMA.
  rewrite checkObj_None. intros (_ & _ & Hfields).
  apply Forall_cons_1 in Hfields as [_ Hfields].
  apply Forall_cons_1 in Hfields as [Hauthor Hfields].
  do 3 apply Forall_cons_1 in Hfields as [_ Hfields].
  apply Forall_cons_1 in Hfields as [Hpath _]. simpl in *.
  apply checkString_None_inv in Hpath as (path & ? & _ & _ & _ & Hchars).
  apply checkString_None in Hauthor as [author ?].
  exists path, author. split; [done|]. split; [done|]. by apply Hchars.
Qed.

(** X20: the rows of the documents are one per path and author: when
    the path alphabet has no space, for documents that pass the schema
    check [upsert] writes the row of a document under a [pathAuthor]
    that no document with another path or another author has, so it
    replaces the row of the same path and author and leaves the row of
    every other document. *)
Theorem upsert_one_row_per_path_and_author doc other driver :
  lacksChar " " pathChars ->
  _checkBasicDocumentValidity doc = Valid ->
  _checkBasicDocumentValidity other = Valid ->
  DocDriverSqliteFfi._isClosed driver = false ->
  (exists row,
     DocDriverSqliteFfi.docs
       (DocDriverSqliteFfi._db
          (DocDriverSqliteFfi.upsert doc None driver).2)
       !! pathAuthorOf doc = Some row /\
     DocDriverSqliteFfi.doc row = doc) /\
  (prop other "path" = prop doc "path" ->
   prop other "author" = prop doc "author" ->
   pathAuthorOf other = pathAuthorOf doc) /\
  (prop other "path" <> prop doc "path" \/
   prop other "author" <> prop doc "author" ->
   DocDriverSqliteFfi.docs
     (DocDriverSqliteFfi._db (DocDriverSqliteFfi.upsert doc None driver).2)
     !! pathAuthorOf other =
   DocDriverSqliteFfi.docs (DocDriverSqliteFfi._db driver)
     !! pathAuthorOf other).
Proof.
  intros Hspace Hdoc Hother Hopen.
  unfold DocDriverSqliteFfi.upsert, DocDriverSqliteFfi.upsertSync.
  rewrite Hopen. simpl. fold (pathAuthorOf doc).
  split; [|split].
  - eexists. split; [apply lookup_insert_eq|done].
  - unfold pathAuthorOf. by intros -> ->.
  - intros Hdiffer. apply lookup_insert_ne. intros Hsame.
    destruct (basic_validity_path_author _ Hdoc)
      as (path & author & Hpath & Hauthor & Hchars).
    destruct (basic_validity_path_author _ Hother)
      as (path' & author' & Hpath' & Hauthor' & Hchars').
    unfold pathAuthorOf in Hsame.
    rewrite Hpath, Hauthor, Hpath', Hauthor' in Hsame. simpl in Hsame.
    apply (separator_inj " ") in Hsame as [-> ->];
      [|by apply (lacksChar_onlyHasChars _ _ pathChars)..].
    destruct Hdiffer; congruence.
Qed.

End Rows.

Lemma upsert_one_row_per_path_and_author_witness :
  DocDriverSqliteFfi.docs
    (DocDriverSqliteFfi._db
       (DocDriverSqliteFfi.upsert aboutDoc None
          (DocDriverSqliteFfi.upsert chatDoc None memoryDriver).2).2)
    !! pathAuthorOf chatDoc =
  DocDriverSqliteFfi.docs
    (DocDriverSqliteFfi._db
       (DocDriverSqliteFfi.upsert chatDoc None memoryDriver).2)
    !! pathAuthorOf chatDoc.
Proof.
  apply (@upsert_one_row_per_path_and_author permissiveValidators
           aboutDoc chatDoc
           (DocDriverSqliteFfi.upsert chatDoc None memoryDriver).2).
  - by_computation.
  - by vm_compute.
  - by vm_compute.
  - reflexivity.
  - left. vm_compute. discriminate.
Defined.

Section Queries.
Context `{DocDriverSqliteFfi.QueryEngine}.
Import DocDriverSqliteFfi.

(** X29: when the statement that selects documents returns rows of the
    table, every document that [queryDocs] returns, on a driver that the
    constructor made and any calls have used since, is the document of
    a row with the [_localIndex] of that row, which is at most the
    driver's [_maxLocalIndex]. *)
Theorem queryDocs_localIndex_bounded share filename db fs calls
    Date_now query found :
  (forall q now rows row,
      row ∈ selectDocs q now rows -> exists key, rows !! key = Some row) ->
  (queryDocs Date_now query
     (reached (constructed share filename db) fs calls)).1 = Ok found ->
  Forall
    (fun doc' =>
       exists key row,
         docs (_db (reached (constructed share filename db) fs calls)) !! key
           = Some row /\
         doc' = withLocalIndex (doc row) (localIndex row) /\
         prop doc' "_localIndex" = JNum (localIndex row) /\
         localIndex row <=
           _maxLocalIndex (reached (constructed share filename db) fs calls))
    found.
Proof.
  intros Hselect.
  assert (Hbounded :
    indexesBounded (reached (constructed share filename db) fs calls)).
  { unfold reached. apply run_indexesBounded. simpl.
    apply constructed_indexesBounded. }
  revert Hbounded.
  generalize (reached (constructed share filename db) fs calls) as d.
  intros d Hbounded. unfold queryDocs, queryDocsSync.
  destruct (_isClosed d); [done|].
  destruct (cleanUpQuery query) as [q willMatch].
  assert (Hrows : Forall
    (fun doc' =>
       exists key row,
         docs (_db d) !! key = Some row /\
         doc' = withLocalIndex (doc row) (localIndex row) /\
         prop doc' "_localIndex" = JNum (localIndex row) /\
         localIndex row <= _maxLocalIndex d)
    ((fun row => withLocalIndex (doc row) (localIndex row)) <$>
       selectDocs q (Date_now * 1000) (docs (_db d)))).
  { apply Forall_fmap, Forall_forall. intros row Hrow.
    destruct (Hselect _ _ _ _ Hrow) as [key Hkey].
    exists key, row. split; [done|]. split; [done|].
    split; [|by apply (Hbounded key)].
    unfold withLocalIndex. by rewrite prop_insert. }
  destruct willMatch; simpl; intros [= <-]; done.
Qed.

End Queries.

Lemma queryDocs_localIndex_bounded_witness :
  Forall
    (fun doc' =>
       exists key row,
         DocDriverSqliteFfi.docs (DocDriverSqliteFfi._db
           (@DocDriverSqliteFfi.reached selectAll
              (DocDriverSqliteFfi.constructed "+gardening.bhyux4opeug2ieq"
                 ":memory:" emptyDatabase) ∅
              [DocDriverSqliteFfi.CallUpsert aboutDoc None])) !! key
           = Some row /\
         doc' = DocDriverSqliteFfi.withLocalIndex
                  (DocDriverSqliteFfi.doc row)
                  (DocDriverSqliteFfi.localIndex row) /\
         prop doc' "_localIndex" = JNum (DocDriverSqliteFfi.localIndex row) /\
         DocDriverSqliteFfi.localIndex row <=
           DocDriverSqliteFfi._maxLocalIndex
             (@DocDriverSqliteFfi.reached selectAll
                (DocDriverSqliteFfi.constructed "+gardening.bhyux4opeug2ieq"
                   ":memory:" emptyDatabase) ∅
                [DocDriverSqliteFfi.CallUpsert aboutDoc None]))
    [DocDriverSqliteFfi.withLocalIndex aboutDoc 0].
Proof.
  apply (@queryDocs_localIndex_bounded selectAll
           "+gardening.bhyux4opeug2ieq" ":memory:" emptyDatabase ∅
           [DocDriverSqliteFfi.CallUpsert aboutDoc None] 0 tt).
  - intros q now rows row Hrow. simpl in Hrow.
    apply list_elem_of_fmap in Hrow as ([key row'] & -> & Hrow).
    exists key. by apply elem_of_map_to_list.
  - reflexivity.
Defined.

(** ** The constructor of the driver *)

Section ConstructorFacts.
Context `{CoreValidators}.
Import DocDriverSqliteFfi DocDriverSqliteFfiConstructor.

Lemma constructor_Returns opts disk d disk' :
  constructor opts disk = (Returns d, disk') ->
  exists db db',
    checkMode opts disk = None /\
    addressIsValidResult opts = Valid /\
    ensureTables (openDatabase (filenameOf opts) disk) = Some db /\
    checkShare opts db = (Returns d, db') /\
    disk' = written (filenameOf opts) db' disk.
Proof.
  unfold constructor.
  destruct (checkMode opts disk); [done|].
  destruct (addressIsValidResult opts) as [[]| |]; [|done..].
  destruct (ensureTables _) as [db|]; [|done].
  destruct (checkShare opts db) as [result db'] eqn:Hshare.
  intros [= -> <-]. by exists db, db'.
Qed.

Lemma ensureTables_Some db db' :
  ensureTables db = Some db' ->
  config db' !! "schemaVersion" = Some "2" /\
  docs db' = docs db /\
  (forall key, key <> "schemaVersion" -> config db' !! key = config db !! key).
Proof.
  unfold ensureTables.
  destruct (config db !! "schemaVersion") as [v|] eqn:Hv.
  - case_bool_decide as H2; [|done]. intros [= <-]. by subst.
  - intros [= <-]. simpl. rewrite lookup_insert_eq.
    split; [done|]. split; [done|].
    intros key Hkey. by rewrite lookup_insert_ne.
Qed.

Lemma checkMode_not_other opts disk :
  checkMode opts disk = None ->
  forall mode filename given, opts <> OptsOther mode filename given.
Proof. by destruct opts. Qed.

Lemma checkShare_Returns opts db d db' :
  checkShare opts db = (Returns d, db') ->
  (forall mode filename given, opts <> OptsOther mode filename given) ->
  d = constructed (share d) (filenameOf opts) db' /\
  config db' !! "share" = Some (share d) /\
  (forall given, shareOf opts = Some given -> share d = given) /\
  docs db' = docs db /\
  (forall key, key <> "share" -> config db' !! key = config db !! key) /\
  (forall stored, config db !! "share" = Some stored ->
     (forall filename given, opts <> OptsCreate filename given) ->
     stored = share d /\ db' = db).
Proof.
  unfold checkShare.
  destruct opts as [filename s|filename [s|]|filename [s|]|mode filename s];
    simpl.
  - intros [= <- <-] _. simpl. rewrite lookup_insert_eq.
    split_and!; try done.
    + by intros ? [= <-].
    + intros key Hkey. by rewrite lookup_insert_ne.
    + intros stored _ Hcreate. by destruct (Hcreate filename s).
  - destruct (config db !! "share") as [existing|] eqn:Hex; [|done].
    case_bool_decide as Hne; [done|].
    intros [= <- <-] _. simpl.
    assert (s = existing) as ->
      by (destruct (decide (s = existing)); [done|by destruct Hne]).
    split_and!; try done.
    + by intros ? [= <-].
    + by intros ? [= <-].
  - destruct (config db !! "share") as [existing|] eqn:Hex; [|done].
    intros [= <- <-] _. simpl. split_and!; try done.
    by intros ? [= <-].
  - destruct (config db !! "share") as [existing|] eqn:Hex.
    + case_bool_decide as Hne; [done|].
      intros [= <- <-] _. simpl.
      assert (s = existing) as ->
        by (destruct (decide (s = existing)); [done|by destruct Hne]).
      split_and!; try done.
      * by intros ? [= <-].
      * by intros ? [= <-].
    + intros [= <- <-] _. simpl. rewrite lookup_insert_eq.
      split_and!; try done.
      * by intros ? [= <-].
      * intros key Hkey. by rewrite lookup_insert_ne.
  - done.
  - intros _ Hother. by destruct (Hother mode filename s).
Qed.

(** With a share in the options that is not the share of the store,
    no mode but "create" returns a driver. *)
Lemma mismatch_never_returns opts disk stored given :
  (forall filename s, opts <> OptsCreate filename s) ->
  config (openDatabase (filenameOf opts) disk) !! "share" = Some stored ->
  shareOf opts = Some given -> given <> stored ->
  forall d, (constructor opts disk).1 <> Returns d.
Proof.
  intros Hopen Hstored Hgiven Hne d Hreturns.
  destruct (constructor opts disk) as [result disk'] eqn:Hc.
  simpl in Hreturns. subst result.
  apply constructor_Returns in Hc
    as (db & db' & Hmode & _ & Hensured & Hshare & _).
  apply ensureTables_Some in Hensured as (_ & _ & Hconfig).
  apply checkShare_Returns in Hshare
    as (_ & _ & Hgiven' & _ & _ & Hsame);
    [|by eapply checkMode_not_other].
  destruct (Hsame stored) as [-> _]; [|done|].
  - by rewrite Hconfig.
  - by rewrite (Hgiven' given Hgiven) in Hne.
Qed.

(** X21: the constructor throws an [EarthstarError] and leaves the disk
    as it is when it is to create a file that exists, to open
    [:memory:], to open a file that does not exist, or when it does not
    recognise the mode. *)
Theorem constructor_checks_mode disk :
  (forall filename given,
      filename <> ":memory:" -> is_Some (disk !! filename) ->
      constructor (OptsCreate filename given) disk =
        (Throws (EarthstarError
           ("Tried to create an sqlite file but it already exists: "
            +:+ filename)), disk)) /\
  (forall given,
      constructor (OptsOpen ":memory:" given) disk =
        (Throws (EarthstarError
           "Tried to open :memory: as though it was a file"), disk)) /\
  (forall filename given,
      filename <> ":memory:" -> disk !! filename = None ->
      constructor (OptsOpen filename given) disk =
        (Throws (EarthstarError
           ("Tried to open an sqlite file but it doesn't exist: "
            +:+ filename)), disk)) /\
  (forall mode filename given,
      constructor (OptsOther mode filename given) disk =
        (Throws (EarthstarError ("sqlite unrecognized opts.mode: " +:+ mode)),
         disk)).
Proof.
  split; [|split; [|split]].
  - intros filename given Hfile Hexists.
    unfold constructor, checkMode, lstatSync.
    rewrite (bool_decide_eq_false_2 _ Hfile).
    by rewrite (bool_decide_eq_true_2 _ Hexists).
  - done.
  - intros filename given Hfile Hmissing.
    unfold constructor, checkMode, lstatSync.
    rewrite (bool_decide_eq_false_2 _ Hfile).
    rewrite bool_decide_eq_false_2; [done|].
    rewrite Hmissing. by intros [? ?].
  - done.
Qed.

(** X22: the driver that the constructor returns is open, has the file
    name of the options and the share of the options if they have one;
    its config table holds its share under [share] and [2] under
    [schemaVersion]; its documents are those of the file; no row has a
    local index above its [_maxLocalIndex], which is -1 when there is
    no row; and the disk holds its tables. *)
Theorem constructor_returns opts disk d disk' :
  constructor opts disk = (Returns d, disk') ->
  _isClosed d = false /\
  _filename d = filenameOf opts /\
  (forall given, shareOf opts = Some given -> share d = given) /\
  config (_db d) !! "share" = Some (share d) /\
  config (_db d) !! "schemaVersion" = Some "2" /\
  docs (_db d) = docs (openDatabase (filenameOf opts) disk) /\
  indexesBounded d /\
  (docs (_db d) = ∅ -> _maxLocalIndex d = -1) /\
  disk' = synced d disk.
Proof.
  intros (db & db' & Hmode & _ & Hensured & Hshare & ->)%constructor_Returns.
  apply ensureTables_Some in Hensured as (Hversion & Hdocs & _).
  apply checkShare_Returns in Hshare
    as (Hd & Hstored & Hgiven & Hdocs' & Hconfig & _);
    [|by eapply checkMode_not_other].
  rewrite Hd. unfold synced. simpl.
  split_and!; try done.
  - by rewrite Hconfig.
  - congruence.
  - apply constructed_indexesBounded.
  - intros Hempty. by rewrite MAX_LOCAL_INDEX_QUERY_empty.
Qed.

(** X23: a share in the options that is not the share that the file
    holds is fatal: neither "open" nor "create-or-open" returns a
    driver over the file. *)
Theorem constructor_share_mismatch filename db disk stored given :
  filename <> ":memory:" ->
  disk !! filename = Some db ->
  config db !! "share" = Some stored ->
  given <> stored ->
  (forall d,
      (constructor (OptsOpen filename (Some given)) disk).1 <> Returns d) /\
  (forall d,
      (constructor (OptsCreateOrOpen filename (Some given)) disk).1
      <> Returns d).
Proof.
  intros Hfile Hdb Hstored Hne.
  assert (Hopened : config (openDatabase filename disk) !! "share"
                    = Some stored).
  { unfold openDatabase. rewrite (bool_decide_eq_false_2 _ Hfile).
    by rewrite Hdb. }
  split; intros d; by apply (mismatch_never_returns _ _ stored given).
Qed.

(** X24: a file that "create" has made can be opened: "open" without a
    share returns the same driver and leaves the disk as it is; "open"
    with another share does not return a driver; and "create" on the
    file throws, since the file exists now. *)
Theorem constructor_create_then_open filename given disk d disk' :
  filename <> ":memory:" ->
  constructor (OptsCreate filename given) disk = (Returns d, disk') ->
  constructor (OptsOpen filename None) disk' = (Returns d, disk') /\
  (forall other d',
      other <> given ->
      (constructor (OptsOpen filename (Some other)) disk').1 <> Returns d') /\
  exists msg,
    constructor (OptsCreate filename given) disk' =
      (Throws (EarthstarError msg), disk').
Proof.
  intros Hfile Hcreated.
  apply constructor_Returns in Hcreated
    as (db & db' & _ & _ & Hensured & Hcheck & ->).
  apply ensureTables_Some in Hensured as (Hversion & _ & _).
  simpl in Hcheck. injection Hcheck as <- <-. cbn [filenameOf].
  set (stored := withConfig "share" given db).
  assert (Hshare : config stored !! "share" = Some given)
    by apply lookup_insert_eq.
  assert (Hversion' : config stored !! "schemaVersion" = Some "2").
  { unfold stored. simpl. by rewrite lookup_insert_ne. }
  set (disk' := written filename stored disk).
  assert (Hdisk : disk' !! filename = Some stored).
  { unfold disk', written. rewrite (bool_decide_eq_false_2 _ Hfile).
    apply lookup_insert_eq. }
  assert (Hopened : openDatabase filename disk' = stored).
  { unfold openDatabase. rewrite (bool_decide_eq_false_2 _ Hfile).
    by rewrite Hdisk. }
  assert (Hensured : ensureTables stored = Some stored).
  { unfold ensureTables. rewrite Hversion'.
    by rewrite bool_decide_eq_true_2. }
  assert (Hwritten : written filename stored disk' = disk').
  { unfold written at 1. rewrite (bool_decide_eq_false_2 _ Hfile).
    by apply insert_id. }
  split; [|split].
  - unfold constructor, checkMode, lstatSync, addressIsValidResult. simpl.
    rewrite (bool_decide_eq_false_2 _ Hfile), Hdisk.
    rewrite bool_decide_eq_true_2 by eauto. simpl.
    rewrite Hopened, Hensured. unfold checkShare. rewrite Hshare.
    simpl. by rewrite Hwritten.
  - intros other d' Hother.
    apply (mismatch_never_returns _ _ given other); try done.
    simpl. by rewrite Hopened.
  - eexists. unfold constructor, checkMode, lstatSync.
    rewrite (bool_decide_eq_false_2 _ Hfile), Hdisk.
    rewrite bool_decide_eq_true_2 by eauto. reflexivity.
Qed.

(** X25: the constructor validates the share of the options before it
    opens the database: with a share that is not empty and that
    [checkShareIsValid] rejects it throws that [ValidationError] and
    leaves the disk as it is; but an empty share is never validated:
    "create" with the empty string as share returns a driver whose
    share is empty. *)
Theorem constructor_validates_share :
  (forall opts disk given e,
      checkMode opts disk = None ->
      shareOf opts = Some given -> given <> "" ->
      checkShareIsValid given = Err e ->
      constructor opts disk = (ThrowsValidationError e, disk)) /\
  (forall filename disk,
      checkMode (OptsCreate filename "") disk = None ->
      exists d, (constructor (OptsCreate filename "") disk).1 = Returns d /\
                share d = "").
Proof.
  split.
  - intros opts disk given e Hmode Hshare Hfull Hinvalid.
    unfold constructor, addressIsValidResult.
    rewrite Hmode, Hshare, (bool_decide_eq_false_2 _ Hfull).
    by rewrite Hinvalid.
  - intros filename disk Hmode. unfold constructor, addressIsValidResult.
    rewrite Hmode. simpl.
    assert (Hnew : openDatabase filename disk =
                   {| config := ∅; docs := ∅ |}).
    { unfold openDatabase. unfold checkMode, lstatSync in Hmode.
      case_bool_decide as Hfile; [done|]. simpl in Hmode.
      case_bool_decide as Hexists; [done|].
      destruct (disk !! filename) as [db|] eqn:Hdb; [|done].
      destruct Hexists. by exists db. }
    rewrite Hnew. unfold ensureTables. simpl. rewrite lookup_empty. simpl.
    eexists. split; [reflexivity|done].
Qed.

End ConstructorFacts.

Lemma constructor_garden :
  @DocDriverSqliteFfiConstructor.constructor permissiveValidators
    (DocDriverSqliteFfiConstructor.OptsCreate "garden.sqlite"
       "+gardening.bhyux4opeug2ieq") ∅ =
  (DocDriverSqliteFfiConstructor.Returns gardenDriver, gardenDisk).
Proof. reflexivity. Qed.

Lemma constructor_checks_mode_witness :
  @DocDriverSqliteFfiConstructor.constructor permissiveValidators
    (DocDriverSqliteFfiConstructor.OptsOpen "meadow.sqlite" None) gardenDisk =
  (DocDriverSqliteFfiConstructor.Throws
     (EarthstarError
        ("Tried to open an sqlite file but it doesn't exist: "
         +:+ "meadow.sqlite")), gardenDisk).
Proof.
  apply (@constructor_checks_mode permissiveValidators gardenDisk).
  - discriminate.
  - reflexivity.
Defined.

Lemma constructor_returns_witness :
  DocDriverSqliteFfi._isClosed gardenDriver = false /\
  DocDriverSqliteFfi._maxLocalIndex gardenDriver = -1.
Proof.
  destruct (@constructor_returns permissiveValidators
              (DocDriverSqliteFfiConstructor.OptsCreate "garden.sqlite"
                 "+gardening.bhyux4opeug2ieq") ∅ gardenDriver gardenDisk)
    as (Hopen & _ & _ & _ & _ & _ & _ & Hmax & _).
  - apply constructor_garden.
  - split; [exact Hopen|]. apply Hmax. reflexivity.
Defined.

Lemma constructor_share_mismatch_witness :
  (@DocDriverSqliteFfiConstructor.constructor permissiveValidators
     (DocDriverSqliteFfiConstructor.OptsOpen "garden.sqlite"
        (Some "+meadow.bhyux4opeug2ieq")) gardenDisk).1
  <> DocDriverSqliteFfiConstructor.Returns gardenDriver.
Proof.
  destruct (@constructor_share_mismatch permissiveValidators
              "garden.sqlite" gardenDb gardenDisk
              "+gardening.bhyux4opeug2ieq" "+meadow.bhyux4opeug2ieq")
    as [Hopen _].
  - discriminate.
  - reflexivity.
  - reflexivity.
  - discriminate.
  - apply Hopen.
Defined.

Lemma constructor_create_then_open_witness :
  @DocDriverSqliteFfiConstructor.constructor permissiveValidators
    (DocDriverSqliteFfiConstructor.OptsOpen "garden.sqlite" None) gardenDisk =
  (DocDriverSqliteFfiConstructor.Returns gardenDriver, gardenDisk).
Proof.
  apply (@constructor_create_then_open permissiveValidators "garden.sqlite"
           "+gardening.bhyux4opeug2ieq" ∅ gardenDriver gardenDisk).
  - discriminate.
  - apply constructor_garden.
Defined.

Lemma constructor_validates_share_witness :
  @DocDriverSqliteFfiConstructor.constructor rejectingValidators
    (DocDriverSqliteFfiConstructor.OptsCreateOrOpen "garden.sqlite"
       (Some "gardening")) gardenDisk =
  (DocDriverSqliteFfiConstructor.ThrowsValidationError
     (mkValidationError "invalid share address"), gardenDisk).
Proof.
  apply (proj1 (@constructor_validates_share rejectingValidators)
           _ _ "gardening").
  - reflexivity.
  - reflexivity.
  - discriminate.
  - reflexivity.
Defined.

(** ** String helpers *)

Lemma lacksChar_app c (s t : string) :
  lacksChar c (s +:+ t) <-> lacksChar c s /\ lacksChar c t.
Proof.
  induction s as [|a s IH].
  - change ("" +:+ t) with t. split; [|by intros [_ ?]].
    intros Ht. split; [apply lacksChar_nil|done].
  - change (String a s +:+ t) with (String a (s +:+ t)).
    rewrite !lacksChar_String, IH. tauto.
Qed.

Lemma occurrences_lacksChar c (s : string) :
  lacksChar c s -> occurrences c s = 0%nat.
Proof.
  unfold occurrences. induction s as [|a s IH]; [done|].
  intros [Hne Hs]%lacksChar_String. simpl.
  rewrite filter_cons, decide_False by done. auto.
Qed.

Section MiscFacts.
Import Misc.

(** [split] on the cases that show how JavaScript cuts. *)
Example split_commas : split "a,b,,c" "," = ["a"; "b"; ""; "c"].
Proof. reflexivity. Qed.
Example split_long_separator : split "a--b-c--" "--" = ["a"; "b-c"; ""].
Proof. reflexivity. Qed.
Example split_overlapping : split "aaa" "aa" = [""; "a"].
Proof. reflexivity. Qed.
Example split_empty_string : split "" "," = [""].
Proof. reflexivity. Qed.
Example split_characters : split "abc" "" = ["a"; "b"; "c"].
Proof. reflexivity. Qed.
Example split_nothing : split "" "" = [].
Proof. reflexivity. Qed.
Example replaceAll_dots : replaceAll "a.b.c" "." "::" = "a::b::c".
Proof. reflexivity. Qed.
Example countChars_slashes : countChars "/a/b/c" "/" = Some 3.
Proof. reflexivity. Qed.

Lemma join_cons piece pieces separator :
  join (piece :: pieces) separator =
  piece +:+ match pieces with
            | [] => ""
            | _ :: _ => separator +:+ join pieces separator
            end.
Proof. destruct pieces; simpl; [by rewrite String_app_nil_r|done]. Qed.

(** After the characters that are skipped, the pieces join to what is
    left. *)
Lemma splitFrom_join separator skipped str :
  separator <> "" ->
  join ((splitFrom separator (String.length skipped) (skipped +:+ str)).1 ::
        (splitFrom separator (String.length skipped) (skipped +:+ str)).2)
       separator = str.
Proof.
  intros Hsep.
  remember (skipped +:+ str) as whole eqn:Hwhole.
  revert skipped str Hwhole.
  induction whole as [|a whole IH]; intros skipped str Hwhole.
  - destruct skipped; [|discriminate Hwhole]. by destruct str.
  - destruct skipped as [|b skipped].
    + change ("" +:+ str) with str in Hwhole. subst str.
      cbn [String.length splitFrom].
      destruct (String.prefix separator (String a whole)) eqn:Hprefix.
      * apply prefix_app in Hprefix as [post Hpost].
        destruct separator as [|c separator]; [done|].
        change (String c separator +:+ post)
          with (String c (separator +:+ post)) in Hpost.
        injection Hpost as <- ->.
        replace (String.length (String a separator) - 1)%nat
          with (String.length separator) by (simpl; lia).
        specialize (IH separator post eq_refl).
        destruct (splitFrom (String a separator) (String.length separator)
                    (separator +:+ post)) as [piece pieces].
        cbn [fst snd] in *. rewrite join_cons. cbn [String.append].
        by rewrite IH.
      * specialize (IH "" whole eq_refl). cbn [String.length] in IH.
        change ("" +:+ whole) with whole in IH.
        destruct (splitFrom separator 0 whole) as [piece pieces].
        cbn [fst snd] in *. rewrite join_cons in IH |- *.
        change (String a piece +:+ ?x) with (String a (piece +:+ x)).
        by rewrite IH.
    + change (String b skipped +:+ str)
        with (String b (skipped +:+ str)) in Hwhole.
      injection Hwhole as <- ->.
      cbn [String.length splitFrom]. by apply IH.
Qed.

Lemma join_chars (str : string) :
  join ((fun a => String a "") <$> String.list_ascii_of_string str) "" = str.
Proof.
  induction str as [|a str IH]; [done|].
  cbn [String.list_ascii_of_string fmap list_fmap].
  rewrite join_cons. fold (@fmap list _ _ _ (fun a => String a "")
    (String.list_ascii_of_string str)).
  destruct (String.list_ascii_of_string str) as [|b l] eqn:Hl.
  - destruct str; [done|discriminate Hl].
  - change ("" +:+ ?x) with x. by rewrite IH.
Qed.

Lemma splitFrom_absent separator str :
  includes str separator = false -> splitFrom separator 0 str = (str, []).
Proof.
  induction str as [|a str IH]; [done|].
  cbn [includes splitFrom]. intros [Hprefix Hrest]%orb_false_elim.
  rewrite Hprefix. by rewrite (IH Hrest).
Qed.

(** X26: replacing a string by itself changes nothing:
    [replaceAll(str, from, from)] is [str], also when [from] is empty;
    and when [from] is not empty and does not occur in [str],
    [replaceAll(str, from, to)] is [str] for every [to]. *)
Theorem replaceAll_same :
  (forall str from, replaceAll str from from = str) /\
  (forall str from to,
      from <> "" -> ~ contains str from -> replaceAll str from to = str).
Proof.
  split.
  - intros str from. unfold replaceAll, split. case_bool_decide as Hfrom.
    + subst from. apply join_chars.
    + pose proof (splitFrom_join from "" str Hfrom) as Hjoin.
      change ("" +:+ str) with str in Hjoin. cbn [String.length] in Hjoin.
      by destruct (splitFrom from 0 str).
  - intros str from to Hfrom Habsent. unfold replaceAll, split.
    rewrite (bool_decide_eq_false_2 _ Hfrom).
    apply not_contains_includes in Habsent.
    by rewrite (splitFrom_absent _ _ Habsent).
Qed.

Lemma splitFrom_char c str :
  length (splitFrom (String c "") 0 str).2 = occurrences c str /\
  Forall (lacksChar c)
    ((splitFrom (String c "") 0 str).1 :: (splitFrom (String c "") 0 str).2).
Proof.
  unfold occurrences. induction str as [|a str [IHn IHl]].
  - split; [done|]. repeat constructor. apply lacksChar_nil.
  - cbn [splitFrom String.prefix String.length Nat.sub
         String.list_ascii_of_string].
    rewrite filter_cons.
    destruct (ascii_dec c a) as [->|Hne].
    + rewrite decide_True by done.
      assert (Hpre : String.prefix "" str = true) by by destruct str.
      rewrite Hpre.
      destruct (splitFrom (String a "") 0 str) as [piece pieces].
      cbn [fst snd length] in *. split; [by rewrite IHn|].
      constructor; [apply lacksChar_nil|done].
    + rewrite decide_False by (intros ->; by apply Hne).
      destruct (splitFrom (String c "") 0 str) as [piece pieces].
      cbn [fst snd length] in *. split; [done|].
      apply Forall_cons_1 in IHl as [Hpiece Hpieces].
      constructor; [|done]. by apply lacksChar_String.
Qed.

Lemma countChars_char str c :
  countChars str (String c "") = Some (Z.of_nat (occurrences c str)).
Proof.
  unfold countChars, split. simpl.
  destruct (splitFrom_char c str) as [Hn _].
  destruct (splitFrom (String c "") 0 str) as [piece pieces].
  cbn [fst snd length] in *. f_equal. lia.
Qed.

(** X27: for a [char] of one character [countChars] returns the number
    of the characters of [str] that are that character, and it throws
    exactly when [char] is not of length 1. *)
Theorem countChars_counts :
  (forall str c,
      countChars str (String c "") = Some (Z.of_nat (occurrences c str))) /\
  (forall str char,
      countChars str char = None <-> String.length char <> 1%nat).
Proof.
  split; [intros; apply countChars_char|].
  intros str char. unfold countChars.
  destruct (Nat.eqb_spec (String.length char) 1) as [->|Hne]; simpl.
  - split; [done|]. by intros Hne.
  - done.
Qed.

Lemma lacksChar_join c pieces separator :
  Forall (lacksChar c) pieces -> lacksChar c separator ->
  lacksChar c (join pieces separator).
Proof.
  intros Hpieces Hsep. induction Hpieces as [|piece pieces Hp _ IH].
  - apply lacksChar_nil.
  - rewrite join_cons. apply lacksChar_app. split; [done|].
    destruct pieces; [apply lacksChar_nil|].
    apply lacksChar_app. by split.
Qed.

(** X28: [replaceAll] of one character by a string without that
    character leaves no occurrence of it: the result does not contain
    the character, and [countChars] of the result counts 0. *)
Theorem replaceAll_removes c str to :
  lacksChar c to ->
  lacksChar c (replaceAll str (String c "") to) /\
  countChars (replaceAll str (String c "") to) (String c "") = Some 0.
Proof.
  intros Hto.
  assert (Hlacks : lacksChar c (replaceAll str (String c "") to)).
  { unfold replaceAll, split. simpl.
    destruct (splitFrom_char c str) as [_ Hpieces].
    destruct (splitFrom (String c "") 0 str) as [piece pieces].
    by apply lacksChar_join. }
  split; [done|].
  by rewrite countChars_char, occurrences_lacksChar.
Qed.

End MiscFacts.

Lemma replaceAll_same_witness :
  Misc.replaceAll "/about/name" "~" "-" = "/about/name".
Proof.
  apply replaceAll_same.
  - discriminate.
  - apply not_contains_includes. reflexivity.
Defined.

Lemma replaceAll_removes_witness :
  Misc.countChars (Misc.replaceAll "+gardening.bhyux" "." "::") "." = Some 0.
Proof.
  apply (replaceAll_removes "." "+gardening.bhyux" "::").
  by_computation.
Defined.
